(** * Nested-transaction coordinator of storage-mysql (transaction.go)

    A shallow embedding of [StartTransaction], [UseTransaction], [Commit],
    [Rollback], [DoInTransaction] and [GetTransaction], and the properties
    of the specification checked against it.

    The Go code mutates a [transaction] object that several contexts share by
    reference and talks to [database/sql].  Both are kept explicit: the
    [World] holds a heap of [transaction] objects, a heap of [sql.Tx]
    objects, the calls that went out to the database, what the driver will
    answer next, and the debug output.  Every operation is a function from
    a [World] to a result and a new [World], or [Abort] where Go would
    panic or block for ever. *)

From stdpp Require Import base numbers strings list sorting pretty gmap.

Open Scope N_scope.

(** ** Values of the Go program *)

(** Pointers are addresses on one of the heaps of the [World] below. *)
Abbreviation ptr := nat (only parsing).

(** [error]: the values that reach an [error] result.  [nil] is [None] of
    [option error]. *)
Inductive error :=
  | Qerror (msg : string)        (* qerror.Errorf(msg) *)
  | ErrTxDone                    (* database/sql: sql.ErrTxDone *)
  | DriverError (code : nat).    (* anything the driver reports *)

Global Instance error_eq_dec : EqDecision error.
Proof. solve_decision. Defined.

(** Keys and values of [context.Context].  This package binds a string key
    to a pointer to a [transaction]; other packages bind keys and values of their own
    types. *)
Inductive Key :=
  | StringKey (k : string)
  | ForeignKey (n : nat).

Global Instance Key_eq_dec : EqDecision Key.
Proof. solve_decision. Defined.

Inductive dyn :=
  | TransactionPtr (p : ptr)     (* pointer to a transaction *)
  | Foreign (n : nat).

(** [interface{}]: [None] is the nil interface. *)
Definition any := option dyn.

(** A non-nil context is a chain of [context.WithValue] nodes. *)
Inductive valueCtx :=
  | Background
  | WithValue (parent : valueCtx) (key : Key) (val : any).

(** [context.Context]: [None] is the nil context. *)
Definition Context := option valueCtx.

Fixpoint lookup_ctx (c : valueCtx) (k : Key) : any :=
  match c with
  | Background => None
  | WithValue parent key val =>
      if decide (key = k) then val else lookup_ctx parent k
  end.

(** ** The mutable world *)

(** [transaction], lines 16-20.  [tx] is a pointer to a [sql.Tx] ([None] is
    nil), [savePoint] a [uint64], [savePointMtx] is [true] while held. *)
Record transaction := {
  tx : option ptr;
  savePoint : N;
  savePointMtx : bool
}.

(** What the coordinator needs of a [database/sql.Tx]: the connection it
    belongs to and whether [Commit] or [Rollback] was already called. *)
Record sqlTx := {
  conn : nat;
  done : bool
}.

(** A call that went out to the database. *)
Inductive Call :=
  | CBegin (db : nat)
  | CExec (t : ptr) (query : string)
  | CCommit (t : ptr)
  | CRollback (t : ptr).

Global Instance Call_eq_dec : EqDecision Call.
Proof. solve_decision. Defined.

(** The SQL statement a call stands for. *)
Definition sql_of (c : Call) : string :=
  match c with
  | CBegin _ => "BEGIN"
  | CExec _ q => q
  | CCommit _ => "COMMIT"
  | CRollback _ => "ROLLBACK"
  end.

Record World := {
  handles : list transaction;     (* heap of transaction objects *)
  txs : list sqlTx;               (* heap of sql.Tx objects *)
  wire : list Call;               (* calls sent to the database, oldest first *)
  driver : list (option nat);     (* answers to the next calls: None is success *)
  debugSQL : bool;                (* the package variable debugSQL *)
  stderr : list string            (* what println wrote *)
}.

Definition set_handles (f : list transaction → list transaction) (w : World) : World :=
  {| handles := f (handles w); txs := txs w; wire := wire w;
     driver := driver w; debugSQL := debugSQL w; stderr := stderr w |}.

Definition set_txs (f : list sqlTx → list sqlTx) (w : World) : World :=
  {| handles := handles w; txs := f (txs w); wire := wire w;
     driver := driver w; debugSQL := debugSQL w; stderr := stderr w |}.

Definition set_wire (f : list Call → list Call) (w : World) : World :=
  {| handles := handles w; txs := txs w; wire := f (wire w);
     driver := driver w; debugSQL := debugSQL w; stderr := stderr w |}.

Definition set_driver (f : list (option nat) → list (option nat)) (w : World) : World :=
  {| handles := handles w; txs := txs w; wire := wire w;
     driver := f (driver w); debugSQL := debugSQL w; stderr := stderr w |}.

Definition set_stderr (f : list string → list string) (w : World) : World :=
  {| handles := handles w; txs := txs w; wire := wire w;
     driver := driver w; debugSQL := debugSQL w; stderr := f (stderr w) |}.

(** ** The monad of the operations *)

Inductive Res (A : Type) :=
  | Ret (a : A) (w : World)
  | Abort.
Arguments Ret {A} a w.
Arguments Abort {A}.

Definition M (A : Type) := World → Res A.

Global Instance M_ret : MRet M := λ A a w, Ret a w.
Global Instance M_bind : MBind M := λ A B f m w,
  match m w with
  | Ret a w' => f a w'
  | Abort => Abort
  end.

Definition abort {A} : M A := λ _, Abort.
Definition get {A} (f : World → A) : M A := λ w, Ret (f w) w.
Definition modify (f : World → World) : M unit := λ w, Ret () (f w).

(** Dereferencing a pointer that is not on the heap does not happen in Go;
    the model aborts there. *)
Definition deref {A} (heap : World → list A) (p : ptr) : M A := λ w,
  match heap w !! p with
  | Some a => Ret a w
  | None => Abort
  end.

(** ** The environment: println, database/sql, context, timelog *)

Definition println (line : string) : M unit :=
  modify (set_stderr (λ out, out ++ [line])).

(** One round trip to the database: the call goes out and the driver
    answers with the head of [driver] (success when nothing is scripted). *)
Definition answer (w : World) : option error :=
  match driver w with
  | Some code :: _ => Some (DriverError code)
  | _ => None
  end.

Definition sent (c : Call) (w : World) : World :=
  set_driver (drop 1) (set_wire (λ l, l ++ [c]) w).

Definition round_trip (c : Call) : M (option error) := λ w,
  Ret (answer w) (sent c w).

(** [Begin] of [sql.DB]: a new [sql.Tx] when the driver accepts. *)
Definition db_Begin (db : nat) : M (option ptr * option error) :=
  err ← round_trip (CBegin db);
  match err with
  | Some e => mret (None, Some e)
  | None =>
      p ← get (λ w, length (txs w));
      modify (set_txs (λ l, l ++ [{| conn := db; done := false |}]));;
      mret (Some p, None)
  end.

(** [Exec] of [sql.Tx]: refused with [ErrTxDone], without a round trip, once
    the transaction is over. *)
Definition tx_Exec (t : option ptr) (query : string) : M (option error) :=
  match t with
  | None => abort
  | Some p =>
      x ← deref txs p;
      if done x then mret (Some ErrTxDone) else round_trip (CExec p query)
  end.

(** [Commit] and [Rollback] of [sql.Tx]: the first call marks the
    transaction as over, whatever the driver answers. *)
Definition tx_finish (mk : ptr → Call) (t : option ptr) : M (option error) :=
  match t with
  | None => abort
  | Some p =>
      x ← deref txs p;
      if done x then mret (Some ErrTxDone)
      else
        modify (set_txs (λ l, <[p := {| conn := conn x; done := true |}]> l));;
        round_trip (mk p)
  end.

Definition tx_Commit : option ptr → M (option error) := tx_finish CCommit.
Definition tx_Rollback : option ptr → M (option error) := tx_finish CRollback.

(** [ctx.Value(key)]: a method call on the nil interface panics. *)
Definition ctx_Value (c : Context) (k : Key) : M any :=
  match c with
  | None => abort
  | Some c => mret (lookup_ctx c k)
  end.

(** [context.WithValue(parent, key, val)]: panics on a nil parent. *)
Definition context_WithValue (parent : Context) (k : Key) (v : any) : M Context :=
  match parent with
  | None => abort
  | Some c => mret (Some (WithValue c k v))
  end.

(** [strconv.FormatUint(n, 10)] and [strconv.FormatInt(n, 10)]. *)
Definition FormatUint (n : N) : string := pretty n.
Definition FormatInt (n : Z) : string := pretty n.

(** A [MySQL] receiver: its address, as [int64(uintptr(unsafe.Pointer(s)))] gives
    it, and the database behind [s.db]. *)
Record MySQL := {
  self : Z;
  db : nat
}.

Definition ctx_transaction_key : string := "MYSQL_TRANSACTION".

(** [transactionKey], lines 178-180. *)
Definition transactionKey (s : MySQL) : Key :=
  StringKey (ctx_transaction_key +:+ FormatInt (self s)).
Global Arguments transactionKey : simpl never.

(** [github.com/go-qbit/timelog] is another project.  [timelog.Start] and
    [timelog.Finish] return a context made from the one they get; nothing
    more is known of them, and they are a parameter of what follows. *)
Class Timelog := {
  timelog_Start : valueCtx → string → valueCtx;
  timelog_Finish : valueCtx → valueCtx
}.

(** ** The [transaction] objects *)

(** [&transaction{tx: tx}] *)
Definition new_transaction (t : option ptr) : M ptr :=
  p ← get (λ w, length (handles w));
  modify (set_handles (λ l, l ++ [{| tx := t; savePoint := 0; savePointMtx := false |}]));;
  mret p.

Definition store (p : ptr) (h : transaction) : M unit :=
  modify (set_handles (λ l, <[p := h]> l)).

(** [t.savePointMtx.Lock()]: with the mutex held nobody is left to release
    it in a sequential run, the call never returns. *)
Definition Lock (p : ptr) : M unit :=
  h ← deref handles p;
  if savePointMtx h then abort
  else store p {| tx := tx h; savePoint := savePoint h; savePointMtx := true |}.

(** [t.savePointMtx.Unlock()]: a fatal error on a mutex that is not held. *)
Definition Unlock (p : ptr) : M unit :=
  h ← deref handles p;
  if savePointMtx h
  then store p {| tx := tx h; savePoint := savePoint h; savePointMtx := false |}
  else abort.

(** [defer t.savePointMtx.Unlock()] around the rest of the function. *)
Definition defer_Unlock {A} (p : ptr) (body : M A) : M A :=
  r ← body; Unlock p;; mret r.

Definition uint64_max : N := 2 ^ 64 - 1.

(** [t.savePoint++] on a [uint64] *)
Definition incr_savePoint (p : ptr) : M unit :=
  h ← deref handles p;
  store p {| tx := tx h; savePoint := (savePoint h + 1) mod 2 ^ 64;
             savePointMtx := savePointMtx h |}.

(** [t.savePoint--], only reached with [t.savePoint > 0] *)
Definition decr_savePoint (p : ptr) : M unit :=
  h ← deref handles p;
  store p {| tx := tx h; savePoint := (savePoint h + 2 ^ 64 - 1) mod 2 ^ 64;
             savePointMtx := savePointMtx h |}.

(** The type assertion of [t] to a pointer to [transaction]: panics on a value of another type. *)
Definition as_transaction (v : dyn) : M ptr :=
  match v with
  | TransactionPtr p => mret p
  | Foreign _ => abort
  end.

(** [if debugSQL { println(line) }] *)
Definition debug (line : string) : M unit :=
  get debugSQL ≫= λ enabled : bool,
  if enabled then println line else mret ().

(** [ctx = timelog.Start(ctx, caption)] and [ctx = timelog.Finish(ctx)] *)
Definition timelog_start `{Timelog} (c : Context) (caption : string) : Context :=
  (λ c, timelog_Start c caption) <$> c.
Definition timelog_finish `{Timelog} (c : Context) : Context :=
  timelog_Finish <$> c.

(** ** The coordinator *)

Section Coordinator.
Context `{Timelog}.
Variable s : MySQL.

(** [StartTransaction], lines 22-56 *)
Definition StartTransaction (ctx : Context) : M (Context * option error) :=
  t ← ctx_Value ctx (transactionKey s);
  match t with
  | None =>
      debug "BEGIN";;
      let ctx := timelog_start ctx "BEGIN" in
      '(begun, err) ← db_Begin (db s);
      let ctx := timelog_finish ctx in
      match err with
      | Some e => mret (None, Some e)
      | None =>
          p ← new_transaction begun;
          ctx' ← context_WithValue ctx (transactionKey s) (Some (TransactionPtr p));
          mret (ctx', None)
      end
  | Some t =>
      t ← as_transaction t;
      Lock t;;
      defer_Unlock t (
        incr_savePoint t;;
        h ← deref handles t;
        debug ("SAVEPOINT SP" +:+ FormatUint (savePoint h));;
        h ← deref handles t;
        err ← tx_Exec (tx h) ("SAVEPOINT SP" +:+ FormatUint (savePoint h));
        match err with
        | Some e => mret (None, Some e)
        | None => mret (ctx, None)
        end)
  end.

(** [UseTransaction], lines 58-71 *)
Definition UseTransaction (ctx : Context) (given : option ptr) : M (Context * option error) :=
  match given with
  | None => mret (None, Some (Qerror "No transaction provided"))
  | Some _ =>
      t ← ctx_Value ctx (transactionKey s);
      match t with
      | Some _ => mret (None, Some (Qerror "Transaction already started"))
      | None =>
          p ← new_transaction given;
          ctx' ← context_WithValue ctx (transactionKey s) (Some (TransactionPtr p));
          mret (ctx', None)
      end
  end.

(** The common shape of [Commit], lines 73-109, and [Rollback], lines
    111-147: [verb] is the savepoint statement, [word] the statement
    that ends the real transaction and [finish] the call that does it. *)
Definition finalize (verb word : string) (finish : option ptr → M (option error))
    (ctx : Context) : M (Context * option error) :=
  ct ← ctx_Value ctx (transactionKey s);
  match ct with
  | None => mret (None, Some (Qerror "No started transaction"))
  | Some ct =>
      t ← as_transaction ct;
      Lock t;;
      defer_Unlock t (
        h ← deref handles t;
        if decide (0 < savePoint h) then
          debug (verb +:+ FormatUint (savePoint h));;
          h ← deref handles t;
          err ← tx_Exec (tx h) (verb +:+ FormatUint (savePoint h));
          match err with
          | Some e => mret (None, Some e)
          | None => decr_savePoint t;; mret (ctx, None)
          end
        else
          debug word;;
          let ctx := timelog_start ctx word in
          h ← deref handles t;
          err ← finish (tx h);
          let ctx := timelog_finish ctx in
          match err with
          | Some e => mret (None, Some e)
          | None =>
              ctx' ← context_WithValue ctx (transactionKey s) None;
              mret (ctx', None)
          end)
  end.

Definition Commit : Context → M (Context * option error) :=
  finalize "RELEASE SAVEPOINT SP" "COMMIT" tx_Commit.

Definition Rollback : Context → M (Context * option error) :=
  finalize "ROLLBACK TO SAVEPOINT SP" "ROLLBACK" tx_Rollback.

(** [DoInTransaction], lines 149-166.  [f] is any Go function. *)
Definition DoInTransaction (ctx : Context) (f : Context → M (option error))
    : M (option error) :=
  '(ctx, err) ← StartTransaction ctx;
  match err with
  | Some e => mret (Some e)
  | None =>
      err ← f ctx;
      match err with
      | Some e => Rollback ctx;; mret (Some e)
      | None =>
          '(_, err) ← Commit ctx;
          match err with
          | Some e => Rollback ctx;; mret (Some e)
          | None => mret None
          end
      end
  end.

(** [GetTransaction], lines 168-176 *)
Definition GetTransaction (ctx : Context) : M (option ptr) :=
  t ← ctx_Value ctx (transactionKey s);
  match t with
  | None => mret None
  | Some t => t ← as_transaction t; h ← deref handles t; mret (tx h)
  end.

End Coordinator.

(** ** Callers *)

(** A caller that threads the returned context through a sequence of
    calls and stops at the first error. *)
Inductive Op := OpStart | OpCommit | OpRollback.

Definition call `{Timelog} (s : MySQL) (op : Op) : Context → M (Context * option error) :=
  match op with
  | OpStart => StartTransaction s
  | OpCommit => Commit s
  | OpRollback => Rollback s
  end.

Fixpoint calls `{Timelog} (s : MySQL) (ops : list Op) (ctx : Context)
    : M (Context * option error) :=
  match ops with
  | [] => mret (ctx, None)
  | op :: rest =>
      '(ctx', err) ← call s op ctx;
      match err with
      | Some e => mret (ctx', Some e)
      | None => calls s rest ctx'
      end
  end.

(** [k] transaction scopes, one inside the other, around [g]. *)
Fixpoint scopes `{Timelog} (s : MySQL) (k : nat) (g : Context → M (option error))
    (ctx : Context) : M (option error) :=
  match k with
  | O => g ctx
  | S k => DoInTransaction s ctx (scopes s k g)
  end.

(** The [transaction] a context is bound to, if any. *)
Definition bound (s : MySQL) (ctx : Context) : any :=
  match ctx with
  | None => None
  | Some c => lookup_ctx c (transactionKey s)
  end.

(** The [SAVEPOINT] statements among the calls sent so far. *)
Definition issued_savepoints (w : World) : list string :=
  filter (λ q, String.prefix "SAVEPOINT SP" q = true) (sql_of <$> wire w).

(** What a call did, apart from the context it returned. *)
Definition effect {A} (r : Res (A * option error)) : Res (option error) :=
  match r with
  | Ret (_, err) w => Ret err w
  | Abort => Abort
  end.

(** [d + 1; d + 2; ...; d + n] *)
Fixpoint count_up (d : N) (n : nat) : list N :=
  match n with
  | O => []
  | S n => (d + 1) :: count_up (d + 1) n
  end.

(** ** A concrete setting to run the operations in *)

(** A [timelog] that records its marks under a key of its own. *)
#[export] Instance timelog_marks : Timelog := {|
  timelog_Start c caption := WithValue c (ForeignKey 0) (Some (Foreign 1));
  timelog_Finish c := WithValue c (ForeignKey 0) (Some (Foreign 2))
|}.

Definition storage : MySQL := {| self := 824634236928; db := 0 |}.

(** A second [MySQL] object, at another address, on another database. *)
Definition storage2 : MySQL := {| self := 824634237184; db := 1 |}.

Definition fresh_world : World :=
  {| handles := []; txs := []; wire := []; driver := [];
     debugSQL := false; stderr := [] |}.

(** A context bound to the [transaction] at address 0, and a world in
    which this [transaction] is at depth [d] on an open [sql.Tx], with the
    answers the driver will give. *)
Definition bound_context : valueCtx :=
  WithValue Background (transactionKey storage) (Some (TransactionPtr 0)).

Definition open_handle (d : N) : transaction :=
  {| tx := Some 0%nat; savePoint := d; savePointMtx := false |}.

Definition open_tx : sqlTx := {| conn := 0; done := false |}.

Definition open_world (d : N) (answers : list (option nat)) : World :=
  {| handles := [open_handle d]; txs := [open_tx]; wire := [];
     driver := answers; debugSQL := false; stderr := [] |}.

(** The same world with [debugSQL] on, and with the [sql.Tx] over. *)
Definition loud_world (d : N) (answers : list (option nat)) : World :=
  {| handles := [open_handle d]; txs := [open_tx]; wire := [];
     driver := answers; debugSQL := true; stderr := [] |}.

Definition over_tx : sqlTx := {| conn := 0; done := true |}.

Definition over_world (d : N) : World :=
  {| handles := [open_handle d]; txs := [over_tx]; wire := [];
     driver := []; debugSQL := false; stderr := [] |}.

(** A context bound for [storage] and for [storage2], to the
    [transaction]s at addresses 0 and 1, and a world that has both. *)
Definition shared_context : valueCtx :=
  WithValue bound_context (transactionKey storage2) (Some (TransactionPtr 1)).

Definition two_worlds : World :=
  {| handles := [open_handle 0; {| tx := Some 1%nat; savePoint := 3; savePointMtx := false |}];
     txs := [open_tx; {| conn := 1; done := false |}]; wire := [];
     driver := []; debugSQL := false; stderr := [] |}.


(** A function that fails without touching the database, and one that
    runs it in a transaction scope of its own. *)
Definition failing (ctx : Context) : M (option error) :=
  mret (Some (Qerror "boom")).

Definition inner_scope (ctx : Context) : M (option error) :=
  DoInTransaction storage ctx failing.

(** A function that opens a savepoint and fails without closing it, and
    one that commits the transaction it runs in and then fails. *)
Definition leaves_savepoint (ctx : Context) : M (option error) :=
  StartTransaction storage ctx;; mret (Some (Qerror "boom")).

Definition commits_and_fails (ctx : Context) : M (option error) :=
  Commit storage ctx;; mret (Some (Qerror "boom")).

(** ** What the calls leave behind *)

(** The world after [if debugSQL { println(line) }]. *)
Definition say (line : string) (w : World) : World :=
  if debugSQL w then set_stderr (λ out, out ++ [line]) w else w.

(** The context is bound to the [transaction] at [p], which is [h] with
    its mutex free and a [uint64] in [savePoint], and [h.tx] is the
    [sql.Tx] at [t], which is [x]. *)
Definition live (s : MySQL) (ctx : Context) (w : World)
    (p : ptr) (h : transaction) (t : ptr) (x : sqlTx) : Prop :=
  bound s ctx = Some (TransactionPtr p) ∧ handles w !! p = Some h ∧
  savePointMtx h = false ∧ savePoint h ≤ uint64_max ∧
  tx h = Some t ∧ txs w !! t = Some x.

(** The depth counter of the [transaction] a context is bound to. *)
Definition depth (s : MySQL) (ctx : Context) (w : World) : option N :=
  match bound s ctx with
  | Some (TransactionPtr p) => savePoint <$> handles w !! p
  | _ => None
  end.

Definition with_savePoint (n : N) (h : transaction) : transaction :=
  {| tx := tx h; savePoint := n; savePointMtx := savePointMtx h |}.

Definition with_mutex (held : bool) (h : transaction) : transaction :=
  {| tx := tx h; savePoint := savePoint h; savePointMtx := held |}.

Definition put_handle (p : ptr) (h : transaction) : World → World :=
  set_handles (λ l, <[p := h]> l).

Definition finished (x : sqlTx) : sqlTx := {| conn := conn x; done := true |}.

Definition put_tx (t : ptr) (x : sqlTx) : World → World :=
  set_txs (λ l, <[t := x]> l).

Definition savepoint_stmt (verb : string) (n : N) : string := verb +:+ FormatUint n.

(** Every [transaction] on the heap of [w] is still on the heap of [w']
    and still wraps the same [sql.Tx]. *)
Definition keeps (w w' : World) : Prop :=
  ∀ q hq, handles w !! q = Some hq →
    ∃ hq', handles w' !! q = Some hq' ∧ tx hq' = tx hq.

(** Every scripted answer of the driver is a success. *)
Definition all_ok (answers : list (option nat)) : Prop :=
  Forall (λ a, a = None) answers.

(** What a call does to the depth counter and which statement it sends
    while it works on savepoints. *)
Definition next_depth (op : Op) (d : N) : N :=
  match op with
  | OpStart => d + 1
  | OpCommit | OpRollback => d - 1
  end.

Definition nested_stmt (op : Op) (d : N) : string :=
  match op with
  | OpStart => savepoint_stmt "SAVEPOINT SP" (d + 1)
  | OpCommit => savepoint_stmt "RELEASE SAVEPOINT SP" d
  | OpRollback => savepoint_stmt "ROLLBACK TO SAVEPOINT SP" d
  end.

(** The calls of [ops] all work on savepoints when they start at depth
    [d]: no [Start] at the top of the [uint64] range, no [Commit] or
    [Rollback] at depth 0. *)
Fixpoint stays_nested (d : N) (ops : list Op) : Prop :=
  match ops with
  | [] => True
  | op :: rest =>
      match op with
      | OpStart => d < uint64_max
      | OpCommit | OpRollback => 0 < d
      end ∧ stays_nested (next_depth op d) rest
  end.

Definition depth_after (d : N) (ops : list Op) : N :=
  foldl (λ d op, next_depth op d) d ops.

Fixpoint nested_stmts (t : ptr) (d : N) (ops : list Op) : list Call :=
  match ops with
  | [] => []
  | op :: rest => CExec t (nested_stmt op d) :: nested_stmts t (next_depth op d) rest
  end.

Definition closer (op : Op) : Prop := op = OpCommit ∨ op = OpRollback.

(** The call that ends the real transaction. *)
Definition closing_call (op : Op) (t : ptr) : Call :=
  match op with
  | OpRollback => CRollback t
  | OpStart | OpCommit => CCommit t
  end.

(** The call that goes out when [op] runs at depth [d] on the [sql.Tx]
    at [t]. *)
Definition call_sent (op : Op) (d : N) (t : ptr) : Call :=
  match op with
  | OpStart => CExec t (nested_stmt OpStart d)
  | OpCommit | OpRollback =>
      if decide (d = 0) then closing_call op t else CExec t (nested_stmt op d)
  end.

(** Every [transaction] on the heap of [w], but the one at [p] if there
    is one, is the same in [w']. *)
Definition others_kept (p : option ptr) (w w' : World) : Prop :=
  ∀ q hq, handles w !! q = Some hq → p ≠ Some q → handles w' !! q = Some hq.

(** How a scope is closed after a function that returned [ferr]. *)
Definition closing_op (ferr : option error) : Op :=
  match ferr with
  | Some _ => OpRollback
  | None => OpCommit
  end.

(** The statements that open the savepoints [ids], and those that close
    them, last opened first. *)
Definition opening (t : ptr) (ids : list N) : list Call :=
  (λ n, CExec t (savepoint_stmt "SAVEPOINT SP" n)) <$> ids.

Definition closing (ferr : option error) (t : ptr) (ids : list N) : list Call :=
  (λ n, CExec t (nested_stmt (closing_op ferr) n)) <$> reverse ids.

(** The mutexes of the [transaction]s on the heap, by address. *)
Definition locks (w : World) : list bool := savePointMtx <$> handles w.

(** ** Goroutines that share one [transaction] *)

(** Several goroutines run the nested branch of [StartTransaction], lines
    40-55, on contexts bound to the same [transaction].  A goroutine is at
    one of these points; [t.savePoint++] is a read followed by a write. *)
Inductive pc :=
  | AtLock                 (* line 41: before t.savePointMtx.Lock() *)
  | AtLoad                 (* line 44: before the read of t.savePoint *)
  | AtStore (seen : N)     (* line 44: before the write of seen + 1 *)
  | AtExec                 (* line 49: before t.tx.Exec("SAVEPOINT SP" + ...) *)
  | AtUnlock               (* lines 51 and 54: before the deferred Unlock *)
  | Returned.

(** What they share: the fields of the [transaction], whether its [sql.Tx]
    is over, and the statements that [Exec] sent. *)
Record Shared := {
  sh_savePoint : N;
  sh_held : bool;
  sh_done : bool;
  sh_sent : list string;
  sh_pcs : list pc
}.

Definition move (i : nat) (next : pc) (sp : N) (held : bool) (out : list string)
    (st : Shared) : Shared :=
  {| sh_savePoint := sp; sh_held := held; sh_done := sh_done st;
     sh_sent := sh_sent st ++ out; sh_pcs := <[i := next]> (sh_pcs st) |}.

(** Goroutine [i] takes its next step.  It stays where it is when it has
    returned, when it waits for the mutex, and when there is no goroutine
    [i]. *)
Definition step (i : nat) (st : Shared) : Shared :=
  match sh_pcs st !! i with
  | Some AtLock =>
      if sh_held st then st
      else move i AtLoad (sh_savePoint st) true [] st
  | Some AtLoad =>
      move i (AtStore (sh_savePoint st)) (sh_savePoint st) (sh_held st) [] st
  | Some (AtStore seen) =>
      move i AtExec ((seen + 1) mod 2 ^ 64) (sh_held st) [] st
  | Some AtExec =>
      move i AtUnlock (sh_savePoint st) (sh_held st)
        (if sh_done st then []
         else ["SAVEPOINT SP" +:+ FormatUint (sh_savePoint st)]) st
  | Some AtUnlock =>
      if sh_held st then move i Returned (sh_savePoint st) false [] st
      else st
  | Some Returned | None => st
  end.

(** A schedule names the goroutine that moves next. *)
Definition run_schedule (schedule : list nat) (st : Shared) : Shared :=
  foldl (λ st i, step i st) st schedule.

(** [n] goroutines about to call [StartTransaction] at depth [d]. *)
Definition goroutines (n : nat) (d : N) (over : bool) : Shared :=
  {| sh_savePoint := d; sh_held := false; sh_done := over;
     sh_sent := []; sh_pcs := replicate n AtLock |}.

(** A goroutine is between [Lock] and [Unlock]. *)
Definition critical (p : pc) : bool :=
  match p with
  | AtLoad | AtStore _ | AtExec | AtUnlock => true
  | AtLock | Returned => false
  end.

(** A goroutine has not written its increment yet. *)
Definition pending (p : pc) : bool :=
  match p with
  | AtLock | AtLoad | AtStore _ => true
  | AtExec | AtUnlock | Returned => false
  end.

Definition count (f : pc → bool) (l : list pc) : nat :=
  length (filter (λ p, f p = true) l).

(** What holds of the shared state at every point of every schedule. *)
Record Inv (st : Shared) (nums : list N) : Prop := {
  inv_sent : sh_sent st = savepoint_stmt "SAVEPOINT SP" <$> nums;
  inv_sorted : StronglySorted N.lt nums;
  inv_below : Forall (λ k, k ≤ sh_savePoint st) nums;
  inv_mutex : count critical (sh_pcs st) = if sh_held st then 1%nat else 0%nat;
  inv_seen : ∀ i seen, sh_pcs st !! i = Some (AtStore seen) → seen = sh_savePoint st;
  inv_exec : ∀ i, sh_pcs st !! i = Some AtExec → Forall (λ k, k < sh_savePoint st) nums;
  inv_room : sh_savePoint st + N.of_nat (count pending (sh_pcs st)) ≤ uint64_max
}.

(** A goroutine is about to call [Exec]; a goroutine is past it. *)
Definition at_exec (p : pc) : bool :=
  match p with
  | AtExec => true
  | AtLock | AtLoad | AtStore _ | AtUnlock | Returned => false
  end.

Definition past_exec (p : pc) : bool :=
  match p with
  | AtUnlock | Returned => true
  | AtLock | AtLoad | AtStore _ | AtExec => false
  end.

(** The account of the counter and of the statements, for [n] goroutines
    that started at depth [d]. *)
Record Tally (d : N) (n : nat) (over : bool) (st : Shared) : Prop := {
  tally_goroutines : length (sh_pcs st) = n;
  tally_done : sh_done st = over;
  tally_depth : sh_savePoint st + N.of_nat (count pending (sh_pcs st)) = d + N.of_nat n;
  tally_sent : over = false →
    sh_sent st = savepoint_stmt "SAVEPOINT SP" <$> count_up d (count past_exec (sh_pcs st))
}.

(** The steps a goroutine has taken, and those of all goroutines. *)
Definition steps_taken (p : pc) : nat :=
  match p with
  | AtLock => 0
  | AtLoad => 1
  | AtStore _ => 2
  | AtExec => 3
  | AtUnlock => 4
  | Returned => 5
  end.

Definition all_steps_taken (st : Shared) : nat := sum_list_with steps_taken (sh_pcs st).

(** ** Goroutines that start, commit and roll back *)

(** Goroutines that run [StartTransaction], [Commit] or [Rollback] on
    contexts bound to the same [transaction], with a driver that accepts
    every statement.  Beside the points of [pc], a goroutine in [Commit] or
    [Rollback] can be before the test of lines 84 and 122 and before the
    call that ends the real transaction; [t.savePoint--] is a read followed
    by a write, like [t.savePoint++]. *)
Inductive point :=
  | At (p : pc)
  | AtTest                 (* lines 84, 122: before the test t.savePoint > 0 *)
  | AtEnd.                 (* lines 102, 140: before t.tx.Commit(), t.tx.Rollback() *)

Record Mixed := {
  mx_savePoint : N;
  mx_held : bool;
  mx_done : bool;
  mx_sent : list string;
  mx_procs : list (Op * point)
}.

Definition go (i : nat) (op : Op) (next : point) (sp : N) (held over : bool)
    (out : list string) (st : Mixed) : Mixed :=
  {| mx_savePoint := sp; mx_held := held; mx_done := over;
     mx_sent := mx_sent st ++ out; mx_procs := <[i := (op, next)]> (mx_procs st) |}.

(** The statement of [Exec], without the number, and the statement that
    ends the real transaction. *)
Definition verb (op : Op) : string :=
  match op with
  | OpStart => "SAVEPOINT SP"
  | OpCommit => "RELEASE SAVEPOINT SP"
  | OpRollback => "ROLLBACK TO SAVEPOINT SP"
  end.

Definition word (op : Op) : string :=
  match op with
  | OpRollback => "ROLLBACK"
  | OpStart | OpCommit => "COMMIT"
  end.

(** Goroutine [i] takes its next step.  [StartTransaction] goes from
    [Lock] to the increment, [Exec] and [Unlock]; [Commit] and [Rollback]
    go from [Lock] to the test and then either to [Exec], the decrement
    when [Exec] succeeded, and [Unlock], or to the end of the real
    transaction and [Unlock].  An [sql.Tx] that is over refuses [Exec],
    [Commit] and [Rollback] and sends nothing. *)
Definition mixed_step (i : nat) (st : Mixed) : Mixed :=
  let sp := mx_savePoint st in
  let held := mx_held st in
  let over := mx_done st in
  match mx_procs st !! i with
  | Some (op, At AtLock) =>
      if held then st
      else go i op match op with OpStart => At AtLoad | _ => AtTest end sp true over [] st
  | Some (OpStart, AtTest) | Some (OpStart, AtEnd) => st
  | Some (op, AtTest) =>
      go i op (if decide (0 < sp) then At AtExec else AtEnd) sp held over [] st
  | Some (op, At AtLoad) => go i op (At (AtStore sp)) sp held over [] st
  | Some (OpStart, At (AtStore seen)) =>
      go i OpStart (At AtExec) ((seen + 1) mod 2 ^ 64) held over [] st
  | Some (op, At (AtStore seen)) =>
      go i op (At AtUnlock) ((seen + 2 ^ 64 - 1) mod 2 ^ 64) held over [] st
  | Some (op, At AtExec) =>
      if over then go i op (At AtUnlock) sp held over [] st
      else go i op match op with OpStart => At AtUnlock | _ => At AtLoad end
             sp held over [verb op +:+ FormatUint sp] st
  | Some (op, AtEnd) =>
      if over then go i op (At AtUnlock) sp held over [] st
      else go i op (At AtUnlock) sp held true [word op] st
  | Some (op, At AtUnlock) =>
      if held then go i op (At Returned) sp false over [] st
      else st
  | Some (_, At Returned) | None => st
  end.

Definition run_mixed (schedule : list nat) (st : Mixed) : Mixed :=
  foldl (λ st i, mixed_step i st) st schedule.

(** Goroutines about to make the calls [ops], one each, at depth [d]. *)
Definition mixed_goroutines (ops : list Op) (d : N) (over : bool) : Mixed :=
  {| mx_savePoint := d; mx_held := false; mx_done := over;
     mx_sent := []; mx_procs := (λ op, (op, At AtLock)) <$> ops |}.

(** The goroutines of [Shared], which all run [StartTransaction], among
    the goroutines of [Mixed]. *)
Definition starting (st : Shared) : Mixed :=
  {| mx_savePoint := sh_savePoint st; mx_held := sh_held st; mx_done := sh_done st;
     mx_sent := sh_sent st; mx_procs := (λ p, (OpStart, At p)) <$> sh_pcs st |}.

(** The [SAVEPOINT] statements among those sent. *)
Definition savepoints_sent (st : Mixed) : list string :=
  filter (λ q, String.prefix "SAVEPOINT SP" q = true) (mx_sent st).

(** ** The derived field of the test model *)

(** The values of a row of [map[string]interface{}]. *)
Inductive field_value :=
  | FString (v : string)
  | FInt (v : Z).

(** [row[key].(string)]: a missing key gives the nil interface, and the
    type assertion panics on nil and on a value that is no string.  [None]
    is the panic. *)
Definition string_of (row : gmap string field_value) (key : string) : option string :=
  match row !! key with
  | Some (FString v) => Some v
  | Some (FInt _) | None => None
  end.

(** The [Get] of the field "fullname" of [NewUser]: the value and the
    error it returns, [None] where it panics. *)
Definition fullname_Get (row : gmap string field_value)
    : option (field_value * option error) :=
  name ← string_of row "name";
  lastname ← string_of row "lastname";
  Some (FString ((name +:+ " ") +:+ lastname), None).

(** The [DependsOn] of the field "fullname". *)
Definition fullname_DependsOn : list string := ["name"; "lastname"].

(** A row of the table of users. *)
Definition ada : gmap string field_value :=
  {[ "id" := FInt 1; "name" := FString "Ada"; "lastname" := FString "Lovelace" ]}.

(** * Properties *)

(** ** The primitive steps *)

Ltac unfold_M := unfold mbind, M_bind, mret, M_ret, get, modify, abort in *.

(** Two worlds built from the same one agree field by field. *)
Ltac same_world w :=
  destruct w as [? ? ? ? [] ?];
  unfold put_handle, put_tx, sent, say, set_handles, set_txs, set_wire,
    set_driver, set_stderr, with_mutex, with_savePoint, savepoint_stmt in *;
  cbn [handles txs wire driver debugSQL stderr tx savePoint savePointMtx] in *;
  rewrite ?list_insert_insert_eq;
  try rewrite list_insert_id by eassumption;
  reflexivity.

Lemma deref_handles p h w : handles w !! p = Some h → deref handles p w = Ret h w.
Proof. intros Hp. unfold deref. by rewrite Hp. Qed.

Lemma deref_txs t x w : txs w !! t = Some x → deref txs t w = Ret x w.
Proof. intros Ht. unfold deref. by rewrite Ht. Qed.

Lemma handles_say line w : handles (say line w) = handles w.
Proof. unfold say. by destruct (debugSQL w). Qed.

Lemma txs_say line w : txs (say line w) = txs w.
Proof. unfold say. by destruct (debugSQL w). Qed.

Lemma wire_say line w : wire (say line w) = wire w.
Proof. unfold say. by destruct (debugSQL w). Qed.

Lemma driver_say line w : driver (say line w) = driver w.
Proof. unfold say. by destruct (debugSQL w). Qed.

Lemma answer_say line w : answer (say line w) = answer w.
Proof. unfold answer. by rewrite driver_say. Qed.

Lemma answer_put_handle p h w : answer (put_handle p h w) = answer w.
Proof. reflexivity. Qed.

Lemma debug_say line w : debug line w = Ret () (say line w).
Proof. unfold debug, say, println. unfold_M. by destruct (debugSQL w). Qed.

Lemma Lock_free p h w :
  handles w !! p = Some h → savePointMtx h = false →
  Lock p w = Ret () (put_handle p (with_mutex true h) w).
Proof. intros Hp Hm. unfold Lock, store. unfold_M. by rewrite (deref_handles p h), Hm. Qed.

Lemma Unlock_held p h w :
  handles w !! p = Some h → savePointMtx h = true →
  Unlock p w = Ret () (put_handle p (with_mutex false h) w).
Proof. intros Hp Hm. unfold Unlock, store. unfold_M. by rewrite (deref_handles p h), Hm. Qed.

Lemma incr_savePoint_eq p h w :
  handles w !! p = Some h →
  incr_savePoint p w = Ret () (put_handle p (with_savePoint ((savePoint h + 1) mod 2 ^ 64) h) w).
Proof. intros Hp. unfold incr_savePoint, store. unfold_M. by rewrite (deref_handles p h). Qed.

Lemma decr_savePoint_eq p h w :
  handles w !! p = Some h → 0 < savePoint h → savePoint h ≤ uint64_max →
  decr_savePoint p w = Ret () (put_handle p (with_savePoint (savePoint h - 1) h) w).
Proof.
  intros Hp Hpos Hmax. unfold decr_savePoint, store. unfold_M.
  rewrite (deref_handles p h) by done. unfold uint64_max in Hmax.
  replace (savePoint h + 2 ^ 64 - 1) with ((savePoint h - 1) + 1 * 2 ^ 64) by lia.
  rewrite N.Div0.mod_add, N.mod_small by lia. done.
Qed.

Lemma tx_Exec_eq t x query w :
  txs w !! t = Some x →
  tx_Exec (Some t) query w =
    if done x then Ret (Some ErrTxDone) w else Ret (answer w) (sent (CExec t query) w).
Proof.
  intros Ht. unfold tx_Exec, round_trip. unfold_M.
  rewrite (deref_txs t x) by done. by destruct (done x).
Qed.

Lemma tx_finish_eq mk t x w :
  txs w !! t = Some x →
  tx_finish mk (Some t) w =
    if done x then Ret (Some ErrTxDone) w
    else Ret (answer w) (sent (mk t) (put_tx t (finished x) w)).
Proof.
  intros Ht. unfold tx_finish, round_trip. unfold_M.
  rewrite (deref_txs t x) by done. by destruct (done x).
Qed.

(** Reading the heaps of a world that was written to. *)
Ltac heap :=
  repeat first
    [ progress cbn [handles txs wire driver put_handle put_tx set_handles
                    set_txs sent set_wire set_driver]
    | rewrite handles_say | rewrite txs_say | rewrite wire_say
    | rewrite driver_say | rewrite length_insert
    | rewrite list_lookup_insert_eq ];
  eauto using lookup_lt_Some.

(** ** The operations, case by case *)

Section Facts.
Context `{Timelog}.
Variable s : MySQL.

(** [StartTransaction] without a bound [transaction]: lines 25-38. *)
Lemma StartTransaction_root c w :
  lookup_ctx c (transactionKey s) = None →
  StartTransaction s (Some c) w =
    let w1 := sent (CBegin (db s)) (say "BEGIN" w) in
    match answer w with
    | Some e => Ret (None, Some e) w1
    | None =>
        Ret (Some (WithValue (timelog_Finish (timelog_Start c "BEGIN"))
                     (transactionKey s) (Some (TransactionPtr (length (handles w))))),
             None)
            (set_handles (λ l, l ++ [{| tx := Some (length (txs w)); savePoint := 0;
                                       savePointMtx := false |}])
               (set_txs (λ l, l ++ [{| conn := db s; done := false |}]) w1))
    end.
Proof.
  intros Hc. unfold StartTransaction, ctx_Value, mbind, M_bind, mret, M_ret.
  rewrite Hc, debug_say. unfold db_Begin, round_trip, mbind, M_bind.
  replace (answer (say "BEGIN" w)) with (answer w)
    by (unfold say, answer; by destruct (debugSQL w)).
  destruct (answer w); [done|]. cbn.
  unfold say. by destruct (debugSQL w).
Qed.

(** [StartTransaction] with a bound [transaction]: lines 40-54. *)
Lemma StartTransaction_nested ctx w p h t x :
  live s ctx w p h t x →
  let n := (savePoint h + 1) mod 2 ^ 64 in
  let stmt := savepoint_stmt "SAVEPOINT SP" n in
  StartTransaction s ctx w =
    if done x
    then Ret (None, Some ErrTxDone) (put_handle p (with_savePoint n h) (say stmt w))
    else Ret (match answer w with Some e => (None, Some e) | None => (ctx, None) end)
             (put_handle p (with_savePoint n h) (sent (CExec t stmt) (say stmt w))).
Proof.
  intros (Hb & Hp & Hm & Hmax & Ht & Hx) n stmt.
  destruct ctx as [c|]; [|done]. simpl in Hb.
  assert (p < length (handles w))%nat as Hlt by eauto using lookup_lt_Some.
  unfold StartTransaction, ctx_Value, defer_Unlock. unfold_M.
  rewrite Hb. simpl.
  rewrite (Lock_free p h) by done.
  erewrite incr_savePoint_eq by heap.
  erewrite deref_handles by heap.
  rewrite debug_say.
  erewrite deref_handles by heap.
  simpl tx. simpl savePoint. rewrite Ht.
  erewrite tx_Exec_eq by heap.
  destruct (done x).
  - erewrite Unlock_held by heap. subst n stmt. unfold with_savePoint. rewrite Hm.
    same_world w.
  - rewrite answer_say, !answer_put_handle. destruct (answer w).
    all: erewrite Unlock_held by heap.
    all: subst n stmt; unfold with_savePoint; rewrite Hm; same_world w.
Qed.

(** [Commit] and [Rollback] with open savepoints: lines 84-96 and 122-134. *)
Lemma finalize_nested verb word finish ctx w p h t x :
  live s ctx w p h t x → 0 < savePoint h →
  let stmt := savepoint_stmt verb (savePoint h) in
  finalize s verb word finish ctx w =
    if done x then Ret (None, Some ErrTxDone) (say stmt w)
    else
      let w1 := sent (CExec t stmt) (say stmt w) in
      match answer w with
      | Some e => Ret (None, Some e) w1
      | None => Ret (ctx, None) (put_handle p (with_savePoint (savePoint h - 1) h) w1)
      end.
Proof.
  intros (Hb & Hp & Hm & Hmax & Ht & Hx) Hpos stmt.
  destruct ctx as [c|]; [|done]. simpl in Hb.
  unfold finalize, ctx_Value, defer_Unlock. unfold_M.
  rewrite Hb. simpl.
  rewrite (Lock_free p h) by done.
  erewrite deref_handles by heap.
  simpl savePoint. rewrite decide_True by done.
  rewrite debug_say.
  erewrite deref_handles by heap.
  simpl tx. simpl savePoint. rewrite Ht.
  erewrite tx_Exec_eq by heap.
  destruct (done x).
  - erewrite Unlock_held by heap.
    subst stmt. destruct h; simplify_eq/=. same_world w.
  - rewrite answer_say, !answer_put_handle. destruct (answer w).
    + erewrite Unlock_held by heap.
      subst stmt. destruct h; simplify_eq/=. same_world w.
    + erewrite decr_savePoint_eq by heap.
      erewrite Unlock_held by heap.
      subst stmt. destruct h; simplify_eq/=. same_world w.
Qed.

(** [Commit] and [Rollback] without open savepoints: lines 98-108 and
    136-146. *)
Lemma finalize_root verb word mk c w p h t x :
  live s (Some c) w p h t x → savePoint h = 0 →
  finalize s verb word (tx_finish mk) (Some c) w =
    if done x then Ret (None, Some ErrTxDone) (say word w)
    else
      let w1 := sent (mk t) (put_tx t (finished x) (say word w)) in
      match answer w with
      | Some e => Ret (None, Some e) w1
      | None =>
          Ret (Some (WithValue (timelog_Finish (timelog_Start c word))
                       (transactionKey s) None), None) w1
      end.
Proof.
  intros (Hb & Hp & Hm & Hmax & Ht & Hx) Hzero. simpl in Hb.
  unfold finalize, ctx_Value, defer_Unlock. unfold_M.
  rewrite Hb. simpl.
  rewrite (Lock_free p h) by done.
  erewrite deref_handles by heap.
  cbn [savePoint with_mutex]. rewrite decide_False by lia.
  rewrite debug_say.
  erewrite deref_handles by heap.
  simpl tx. rewrite Ht.
  erewrite tx_finish_eq by heap.
  destruct (done x).
  - erewrite Unlock_held by heap.
    destruct h; simplify_eq/=. same_world w.
  - rewrite answer_say, !answer_put_handle. destruct (answer w).
    all: simpl; erewrite Unlock_held by heap.
    all: destruct h; simplify_eq/=; same_world w.
Qed.

(** ** Chains of calls *)

Lemma answer_all_ok w : all_ok (driver w) → answer w = None.
Proof.
  unfold answer, all_ok. destruct (driver w) as [|[code|] rest]; try done.
  by inversion 1.
Qed.

Lemma all_ok_drop n answers : all_ok answers → all_ok (drop n answers).
Proof. apply Forall_drop. Qed.

(** A successful first [StartTransaction] leaves a live binding at depth 0. *)
Lemma StartTransaction_root_live c w :
  lookup_ctx c (transactionKey s) = None → answer w = None →
  ∃ ctx' w',
    StartTransaction s (Some c) w = Ret (ctx', None) w' ∧
    live s ctx' w' (length (handles w))
      {| tx := Some (length (txs w)); savePoint := 0; savePointMtx := false |}
      (length (txs w)) {| conn := db s; done := false |} ∧
    wire w' = wire w ++ [CBegin (db s)] ∧
    driver w' = drop 1 (driver w).
Proof.
  intros Hc Ha. rewrite StartTransaction_root by done. cbv zeta. rewrite Ha.
  eexists _, _. split; [done|]. split; [|by rewrite ?wire_say, ?driver_say; simpl; rewrite ?wire_say, ?driver_say].
  unfold live. heap. cbn [bound lookup_ctx tx savePoint savePointMtx].
  rewrite decide_True by done.
  rewrite !list_lookup_middle by done.
  unfold uint64_max. repeat split; lia.
Qed.

(** One call that works on a savepoint. *)
Lemma call_nested op ctx w p h t x :
  live s ctx w p h t x → done x = false → stays_nested (savePoint h) [op] →
  match answer w with
  | Some e => ∃ w', call s op ctx w = Ret (None, Some e) w'
  | None =>
      ∃ w', call s op ctx w = Ret (ctx, None) w' ∧
        live s ctx w' p (with_savePoint (next_depth op (savePoint h)) h) t x ∧
        wire w' = wire w ++ [CExec t (nested_stmt op (savePoint h))] ∧
        driver w' = drop 1 (driver w)
  end.
Proof.
  intros Hl Hd [Hfit _].
  pose proof Hl as (Hb & Hp & Hm & Hmax & Ht & Hx).
  assert (p < length (handles w))%nat by eauto using lookup_lt_Some.
  assert (∀ n w1, n ≤ uint64_max → handles w1 = handles w → txs w1 = txs w →
            live s ctx (put_handle p (with_savePoint n h) w1) p (with_savePoint n h) t x)
    as Hlive.
  { intros n w1 Hn Hh Htx. unfold live. simpl. rewrite Hh, Htx.
    rewrite list_lookup_insert_eq by done. done. }
  unfold uint64_max in *.
  destruct op; simpl in *.
  - rewrite (StartTransaction_nested ctx w p h t x) by done. rewrite Hd.
    rewrite N.mod_small by lia.
    destruct (answer w); [eauto|]. eexists. split; [done|].
    split; [apply Hlive; [lia|by heap..]|].
    simpl. by rewrite wire_say, driver_say.
  - unfold Commit. rewrite (finalize_nested _ _ _ ctx w p h t x) by done. rewrite Hd.
    simpl. destruct (answer w); [eauto|]. eexists. split; [done|].
    split; [apply Hlive; [lia|by heap..]|].
    simpl. by rewrite wire_say, driver_say.
  - unfold Rollback. rewrite (finalize_nested _ _ _ ctx w p h t x) by done. rewrite Hd.
    simpl. destruct (answer w); [eauto|]. eexists. split; [done|].
    split; [apply Hlive; [lia|by heap..]|].
    simpl. by rewrite wire_say, driver_say.
Qed.

Lemma with_savePoint_same h : with_savePoint (savePoint h) h = h.
Proof. by destruct h. Qed.

(** A chain of calls that work on savepoints: either the driver refuses
    one of them and the chain stops there, or the counter follows the
    calls and the statements go out in order. *)
Lemma calls_nested ops rest ctx p t x : ∀ w h,
  live s ctx w p h t x → done x = false → stays_nested (savePoint h) ops →
  (∃ e w', calls s (ops ++ rest) ctx w = Ret (None, Some e) w' ∧ ¬ all_ok (driver w)) ∨
  (∃ w1, live s ctx w1 p (with_savePoint (depth_after (savePoint h) ops) h) t x ∧
         wire w1 = wire w ++ nested_stmts t (savePoint h) ops ∧
         (all_ok (driver w) → all_ok (driver w1)) ∧
         calls s (ops ++ rest) ctx w = calls s rest ctx w1).
Proof.
  induction ops as [|op ops IH]; intros w h Hl Hd Hfit.
  - right. exists w. simpl. rewrite with_savePoint_same, app_nil_r. done.
  - destruct Hfit as [Hop Hfit].
    pose proof (call_nested op ctx w p h t x Hl Hd (conj Hop I)) as Hcall.
    destruct (answer w) as [e|] eqn:Ha.
    + left. destruct Hcall as [w' Hcall]. exists e, w'. split.
      * simpl. unfold_M. by rewrite Hcall.
      * intros Hok. by rewrite answer_all_ok in Ha.
    + destruct Hcall as (w' & Hcall & Hl' & Hwire & Hdrv).
      destruct (IH w' _ Hl' Hd Hfit) as [(e & w'' & Hrun & Hno)|(w1 & Hl1 & Hw1 & Hok1 & Hrun)].
      * left. exists e, w''. split.
        -- simpl. unfold_M. by rewrite Hcall.
        -- intros Hok. apply Hno. rewrite Hdrv. by apply all_ok_drop.
      * right. exists w1. split_and!.
        -- done.
        -- rewrite Hw1, Hwire. simpl. by rewrite <- app_assoc.
        -- intros Hok. apply Hok1. rewrite Hdrv. by apply all_ok_drop.
        -- simpl. unfold_M. by rewrite Hcall.
Qed.

Lemma stays_nested_app d ops1 ops2 :
  stays_nested d (ops1 ++ ops2) ↔
  stays_nested d ops1 ∧ stays_nested (depth_after d ops1) ops2.
Proof.
  revert d. induction ops1 as [|op ops1 IH]; intros d; simpl; [tauto|].
  rewrite IH. tauto.
Qed.

Lemma depth_after_app d ops1 ops2 :
  depth_after d (ops1 ++ ops2) = depth_after (depth_after d ops1) ops2.
Proof. apply foldl_app. Qed.

Lemma starts_nested (n : nat) d :
  d + N.of_nat n ≤ uint64_max →
  stays_nested d (replicate n OpStart) ∧
  depth_after d (replicate n OpStart) = d + N.of_nat n.
Proof.
  revert d. induction n as [|n IH]; intros d Hd; simpl.
  - split; [done|]. unfold depth_after. simpl. lia.
  - destruct (IH (d + 1)) as [Hfit Hdepth]; [lia|].
    split; [split; [lia|done]|]. unfold depth_after in *. simpl. rewrite Hdepth. lia.
Qed.

Lemma closers_nested closers d :
  Forall closer closers → N.of_nat (length closers) ≤ d →
  stays_nested d closers ∧
  depth_after d closers = d - N.of_nat (length closers).
Proof.
  intros Hcl. revert d. induction Hcl as [|op closers Hop Hcl IH]; intros d Hd; simpl in *.
  - split; [done|]. unfold depth_after. simpl. lia.
  - destruct (IH (d - 1)) as [Hfit Hdepth]; [lia|].
    assert (next_depth op d = d - 1) as Hnext by by destruct Hop as [-> | ->].
    split.
    + split; [destruct Hop as [-> | ->]; lia|by rewrite Hnext].
    + unfold depth_after in *. simpl. rewrite Hnext, Hdepth. lia.
Qed.

(** [Commit] and [Rollback] without a bound [transaction]: lines 74-78 and
    112-116. *)
Lemma finalize_unbound verb word finish c w :
  lookup_ctx c (transactionKey s) = None →
  finalize s verb word finish (Some c) w
  = Ret (None, Some (Qerror "No started transaction")) w.
Proof. intros Hc. unfold finalize, ctx_Value. unfold_M. by rewrite Hc. Qed.

Lemma call_closer_unbound op c w :
  closer op → lookup_ctx c (transactionKey s) = None →
  call s op (Some c) w = Ret (None, Some (Qerror "No started transaction")) w.
Proof. intros [-> | ->] Hc; by apply finalize_unbound. Qed.

(** The [Commit] or [Rollback] that ends the real transaction. *)
Lemma call_closer_root op c w p h t x :
  closer op → live s (Some c) w p h t x → savePoint h = 0 → done x = false →
  match answer w with
  | Some e => ∃ w', call s op (Some c) w = Ret (None, Some e) w'
  | None =>
      ∃ c' w', call s op (Some c) w = Ret (Some c', None) w' ∧
        lookup_ctx c' (transactionKey s) = None ∧
        handles w' = handles w ∧
        txs w' = <[t := finished x]> (txs w) ∧
        wire w' = wire w ++ [match op with OpRollback => CRollback t | _ => CCommit t end] ∧
        driver w' = drop 1 (driver w)
  end.
Proof.
  intros Hop Hl Hzero Hd.
  assert (∀ verb word mk,
    match answer w with
    | Some e => ∃ w', finalize s verb word (tx_finish mk) (Some c) w = Ret (None, Some e) w'
    | None =>
        ∃ c' w', finalize s verb word (tx_finish mk) (Some c) w = Ret (Some c', None) w' ∧
          lookup_ctx c' (transactionKey s) = None ∧
          handles w' = handles w ∧
          txs w' = <[t := finished x]> (txs w) ∧
          wire w' = wire w ++ [mk t] ∧
          driver w' = drop 1 (driver w)
    end) as Hfin.
  { intros verb word mk. rewrite (finalize_root verb word mk c w p h t x) by done.
    rewrite Hd. cbv beta iota zeta. destruct (answer w); [eauto|].
    eexists _, _. split; [done|]. heap. cbn [lookup_ctx].
    by rewrite decide_True by done. }
  destruct Hop as [-> | ->]; apply Hfin.
Qed.

(** ** Depth and nesting *)

(** C1: from a context without a bound [transaction], a first
    [StartTransaction], [n] nested ones and then [Commit]s and [Rollback]s,
    all successful: the run returns when the driver accepts every call and
    the closing calls do not outnumber the [n + 1] starts; the depth counter
    is [n] after the starts and one less after each closing call; the call
    that runs at depth 0 returns a context in which the binding is absent. *)
Theorem C1_depth_counts_nesting c w (n : nat) closers :
  lookup_ctx c (transactionKey s) = None →
  N.of_nat n ≤ uint64_max →
  Forall closer closers →
  let run := calls s (OpStart :: replicate n OpStart ++ closers) (Some c) w in
  (all_ok (driver w) → (length closers ≤ S n)%nat →
   ∃ ctx' w', run = Ret (ctx', None) w') ∧
  (∀ ctx' w', run = Ret (ctx', None) w' →
    ((length closers ≤ n)%nat →
     depth s ctx' w' = Some (N.of_nat (n - length closers))) ∧
    ((n < length closers)%nat →
     length closers = S n ∧ ctx' ≠ None ∧ bound s ctx' = None)).
Proof.
  intros Hc Hn Hcl run. subst run.
  cbn [calls call]. unfold_M.
  destruct (answer w) as [e|] eqn:Ha.
  { rewrite StartTransaction_root by done. simpl. rewrite Ha. split.
    - intros Hok. by rewrite answer_all_ok in Ha.
    - intros ctx' w' Hrun. simplify_eq. }
  destruct (StartTransaction_root_live c w Hc Ha) as (ctx1 & w1 & -> & Hl & _ & Hdrv).
  cbn beta iota.
  set (h0 := {| tx := Some (length (txs w)); savePoint := 0; savePointMtx := false |}) in *.
  set (x0 := {| conn := db s; done := false |}) in *.
  replace (replicate n OpStart ++ closers)
    with ((replicate n OpStart ++ take n closers) ++ drop n closers)
    by by rewrite <- app_assoc, take_drop.
  assert (Forall closer (take n closers)) as Hcl1 by by apply Forall_take.
  assert (Forall closer (drop n closers)) as Hcl2 by by apply Forall_drop.
  destruct (starts_nested n 0) as [Hfit1 Hd1]; [lia|].
  destruct (closers_nested (take n closers) (N.of_nat n) Hcl1) as [Hfit2 Hd2];
    [rewrite length_take; lia|].
  assert (stays_nested (savePoint h0) (replicate n OpStart ++ take n closers)) as Hfit.
  { change (savePoint h0) with 0. apply stays_nested_app.
    rewrite Hd1. split; [done|]. by rewrite N.add_0_l. }
  assert (depth_after (savePoint h0) (replicate n OpStart ++ take n closers)
          = N.of_nat (n - length (take n closers))) as Hdepth.
  { change (savePoint h0) with 0.
    rewrite depth_after_app, Hd1, N.add_0_l, Hd2. lia. }
  destruct (calls_nested (replicate n OpStart ++ take n closers) (drop n closers)
              ctx1 _ _ x0 w1 h0 Hl eq_refl Hfit)
    as [(e & w' & -> & Hno)|(w2 & Hl2 & _ & Hok2 & ->)].
  { split.
    - intros Hok. destruct Hno. rewrite Hdrv. by apply all_ok_drop.
    - intros ctx' w'' Hrun. simplify_eq. }
  rewrite Hdepth in Hl2.
  destruct (decide (length closers ≤ n)%nat) as [Hle|Hgt].
  - rewrite drop_ge by done. simpl. unfold_M. split; [eauto|].
    intros ctx' w' Hrun. simplify_eq. split; [|intros; lia]. intros _.
    rewrite take_ge in Hl2 by done.
    destruct Hl2 as (Hb & Hp & _). unfold depth. by rewrite Hb, Hp.
  - rewrite length_take, Nat.min_l, Nat.sub_diag in Hl2 by lia.
    destruct (drop n closers) as [|op rest] eqn:Hdrop.
    { apply (f_equal length) in Hdrop. rewrite length_drop in Hdrop. simpl in Hdrop. lia. }
    assert (length closers = S n + length rest)%nat as Hlen.
    { apply (f_equal length) in Hdrop. rewrite length_drop in Hdrop. simpl in Hdrop. lia. }
    apply Forall_cons in Hcl2 as [Hop Hrest].
    destruct ctx1 as [c1|]; [|by destruct Hl2].
    pose proof (call_closer_root op c1 w2 _ _ _ _ Hop Hl2 eq_refl eq_refl) as Hroot.
    cbn [calls]. unfold_M.
    destruct (answer w2) as [e|] eqn:Ha2.
    { destruct Hroot as [w' ->]. split.
      - intros Hok. rewrite answer_all_ok in Ha2; [done|].
        apply Hok2. rewrite Hdrv. by apply all_ok_drop.
      - intros ctx' w'' Hrun. simplify_eq. }
    destruct Hroot as (c' & w3 & -> & Hc' & _).
    destruct rest as [|op' rest].
    + simpl. unfold_M. split; [eauto|].
      intros ctx' w' Hrun. simplify_eq. split; [intros; lia|]. intros _.
      split; [simpl in Hlen; lia|]. done.
    + apply Forall_cons in Hrest as [Hop' _].
      cbn [calls]. unfold_M. rewrite call_closer_unbound by done.
      split; [simpl in Hlen; intros; lia|].
      intros ctx' w' Hrun. simplify_eq.
Qed.

(** ** Misuse *)

(** C7: on a context without a bound [transaction], [Commit] and
    [Rollback] return the error "No started transaction" and leave the
    world as it was: nothing is sent to the database. *)
Theorem C7_no_started_transaction c w :
  lookup_ctx c (transactionKey s) = None →
  Commit s (Some c) w = Ret (None, Some (Qerror "No started transaction")) w ∧
  Rollback s (Some c) w = Ret (None, Some (Qerror "No started transaction")) w.
Proof. intros Hc. split; by apply finalize_unbound. Qed.

(** ** Scenario A *)

Lemma wire_sql_app w1 w2 calls_ :
  wire w2 = wire w1 ++ calls_ → sql_of <$> wire w2 = (sql_of <$> wire w1) ++ (sql_of <$> calls_).
Proof. intros ->. apply fmap_app. Qed.

(** C2: with a driver that accepts every call, [StartTransaction],
    [StartTransaction], [Rollback], [Commit] from a context without a bound
    [transaction] return without error and send exactly BEGIN, SAVEPOINT
    SP1, ROLLBACK TO SAVEPOINT SP1, COMMIT, in this order. *)
Theorem C2_scenario_A c w :
  lookup_ctx c (transactionKey s) = None →
  all_ok (driver w) →
  ∃ ctx' w',
    calls s [OpStart; OpStart; OpRollback; OpCommit] (Some c) w = Ret (ctx', None) w' ∧
    wire w' = wire w ++ [CBegin (db s);
                         CExec (length (txs w)) "SAVEPOINT SP1";
                         CExec (length (txs w)) "ROLLBACK TO SAVEPOINT SP1";
                         CCommit (length (txs w))] ∧
    sql_of <$> wire w' = (sql_of <$> wire w) ++
      ["BEGIN"; "SAVEPOINT SP1"; "ROLLBACK TO SAVEPOINT SP1"; "COMMIT"].
Proof.
  intros Hc Hok.
  destruct (StartTransaction_root_live c w Hc (answer_all_ok w Hok))
    as (ctx1 & w1 & Hstart & Hl & Hwire1 & Hdrv1).
  assert (all_ok (driver w1)) as Hok1 by (rewrite Hdrv1; by apply all_ok_drop).
  destruct (calls_nested [OpStart; OpRollback] [OpCommit] ctx1 _ _ _ w1 _ Hl eq_refl)
    as [(e & w' & _ & Hno)|(w2 & Hl2 & Hwire2 & Hok2 & Hrun)]; [|done|].
  { simpl. unfold uint64_max. lia. }
  destruct ctx1 as [c1|]; [|by destruct Hl2].
  pose proof (call_closer_root OpCommit c1 w2 _ _ _ _ (or_introl eq_refl) Hl2 eq_refl eq_refl)
    as Hroot.
  rewrite (answer_all_ok w2) in Hroot by auto.
  destruct Hroot as (c' & w3 & Hcommit & _ & _ & _ & Hwire3 & _).
  assert (wire w3 = wire w ++ [CBegin (db s);
                         CExec (length (txs w)) "SAVEPOINT SP1";
                         CExec (length (txs w)) "ROLLBACK TO SAVEPOINT SP1";
                         CCommit (length (txs w))]) as Hwire.
  { rewrite Hwire3, Hwire2, Hwire1. by rewrite <- !app_assoc. }
  exists (Some c'), w3. split_and!.
  - change [OpStart; OpStart; OpRollback; OpCommit]
      with (OpStart :: [OpStart; OpRollback] ++ [OpCommit]).
    cbn [calls call]. unfold_M. rewrite Hstart. cbn beta iota.
    rewrite Hrun. cbn [calls]. unfold_M. by rewrite Hcommit.
  - done.
  - by rewrite (wire_sql_app w _ _ Hwire).
Qed.

(** ** Errors and contexts *)

(** A returning [bind] returned in both halves. *)
Lemma bind_Ret {A B} (f : A → M B) (m : M A) w b w' :
  mbind f m w = Ret b w' → ∃ a w1, m w = Ret a w1 ∧ f a w1 = Ret b w'.
Proof. unfold mbind, M_bind. destruct (m w) as [a w1|]; [eauto|done]. Qed.

Ltac inv_bind :=
  repeat match goal with
  | H : mbind _ _ _ = Ret _ _ |- _ =>
      let H1 := fresh "Hstep" in
      apply bind_Ret in H as (? & ? & H1 & H)
  | H : mret _ _ = Ret _ _ |- _ => unfold mret, M_ret in H; simplify_eq
  | H : abort _ = Ret _ _ |- _ => discriminate H
  | H : (match ?x with _ => _ end) _ = Ret _ _ |- _ => destruct x
  | H : (if ?x then _ else _) _ = Ret _ _ |- _ => destruct x
  end.

Lemma keeps_refl w : keeps w w.
Proof. intros q hq Hq. eauto. Qed.

Lemma keeps_trans w1 w2 w3 : keeps w1 w2 → keeps w2 w3 → keeps w1 w3.
Proof.
  intros H12 H23 q hq Hq.
  destruct (H12 q hq Hq) as (hq2 & Hq2 & Htx2).
  destruct (H23 q hq2 Hq2) as (hq3 & Hq3 & Htx3).
  exists hq3. split; [done|congruence].
Qed.

Lemma keeps_same w w' : handles w' = handles w → keeps w w'.
Proof. intros Hh q hq Hq. rewrite Hh. eauto. Qed.

Lemma keeps_store p h h' w :
  handles w !! p = Some h → tx h' = tx h → keeps w (put_handle p h' w).
Proof.
  intros Hp Htx q hq Hq. simpl. destruct (decide (p = q)) as [Heq|Hne].
  - subst q. rewrite Hp in Hq. injection Hq as <-.
    exists h'. by rewrite list_lookup_insert_eq by eauto using lookup_lt_Some.
  - exists hq. by rewrite list_lookup_insert_ne.
Qed.

Lemma keeps_alloc h w : keeps w (set_handles (λ l, l ++ [h]) w).
Proof.
  intros q hq Hq. exists hq. simpl.
  by rewrite lookup_app_l by eauto using lookup_lt_Some.
Qed.

(** The primitive steps keep the heap of [transaction]s in this sense. *)
Ltac prim :=
  unfold tx_Commit, tx_Rollback, tx_finish, tx_Exec, db_Begin, round_trip,
    Lock, Unlock, incr_savePoint, decr_savePoint, store, new_transaction,
    as_transaction, ctx_Value, context_WithValue, debug, println, deref in *;
  unfold_M;
  repeat (case_match; simplify_eq);
  simplify_eq;
  first [ apply keeps_refl
        | apply keeps_alloc
        | by apply keeps_same
        | eapply keeps_store; [eassumption|reflexivity] ].

Lemma debug_keeps line w a w' : debug line w = Ret a w' → keeps w w'.
Proof. intros Hrun. rewrite debug_say in Hrun. simplify_eq. apply keeps_same, handles_say. Qed.
Lemma db_Begin_keeps d w a w' : db_Begin d w = Ret a w' → keeps w w'.
Proof. intros Hrun. prim. Qed.
Lemma tx_Exec_keeps t q w a w' : tx_Exec t q w = Ret a w' → keeps w w'.
Proof. intros Hrun. prim. Qed.
Lemma tx_finish_keeps mk t w a w' : tx_finish mk t w = Ret a w' → keeps w w'.
Proof. intros Hrun. prim. Qed.
Lemma new_transaction_keeps t w a w' : new_transaction t w = Ret a w' → keeps w w'.
Proof. intros Hrun. prim. Qed.
Lemma Lock_keeps p w a w' : Lock p w = Ret a w' → keeps w w'.
Proof. intros Hrun. prim. Qed.
Lemma Unlock_keeps p w a w' : Unlock p w = Ret a w' → keeps w w'.
Proof. intros Hrun. prim. Qed.
Lemma incr_savePoint_keeps p w a w' : incr_savePoint p w = Ret a w' → keeps w w'.
Proof. intros Hrun. prim. Qed.
Lemma decr_savePoint_keeps p w a w' : decr_savePoint p w = Ret a w' → keeps w w'.
Proof. intros Hrun. prim. Qed.
Lemma deref_keeps {A} (heap : World → list A) p w a w' :
  deref heap p w = Ret a w' → keeps w w'.
Proof. intros Hrun. prim. Qed.
Lemma ctx_Value_keeps ctx k w a w' : ctx_Value ctx k w = Ret a w' → keeps w w'.
Proof. intros Hrun. prim. Qed.
Lemma context_WithValue_keeps ctx k v w a w' :
  context_WithValue ctx k v w = Ret a w' → keeps w w'.
Proof. intros Hrun. prim. Qed.
Lemma as_transaction_keeps v w a w' : as_transaction v w = Ret a w' → keeps w w'.
Proof. intros Hrun. prim. Qed.

(** Chaining the steps of an operation that returned. *)
Ltac frame :=
  repeat match goal with
  | H : _ = Ret _ _ |- _ =>
      first [ apply debug_keeps in H | apply db_Begin_keeps in H
            | apply tx_Exec_keeps in H | apply tx_finish_keeps in H
            | apply new_transaction_keeps in H | apply Lock_keeps in H
            | apply Unlock_keeps in H | apply incr_savePoint_keeps in H
            | apply decr_savePoint_keeps in H | apply deref_keeps in H
            | apply ctx_Value_keeps in H | apply context_WithValue_keeps in H
            | apply as_transaction_keeps in H ]
  end;
  repeat (eapply keeps_trans; [eassumption|]); try apply keeps_refl.

Lemma StartTransaction_returns ctx w r err w' :
  StartTransaction s ctx w = Ret (r, err) w' →
  keeps w w' ∧ (err ≠ None → r = None).
Proof.
  unfold StartTransaction, defer_Unlock. intros Hrun. inv_bind.
  all: split; [frame|by intros].
Qed.

Lemma UseTransaction_returns ctx given w r err w' :
  UseTransaction s ctx given w = Ret (r, err) w' →
  keeps w w' ∧ (err ≠ None → r = None).
Proof.
  unfold UseTransaction. intros Hrun. inv_bind.
  all: split; [frame|by intros].
Qed.

Lemma finalize_returns verb word mk ctx w r err w' :
  finalize s verb word (tx_finish mk) ctx w = Ret (r, err) w' →
  keeps w w' ∧ (err ≠ None → r = None).
Proof.
  unfold finalize, defer_Unlock. intros Hrun. inv_bind.
  all: split; [frame|by intros].
Qed.

(** C9: when [StartTransaction], [UseTransaction], [Commit] or [Rollback]
    returns an error, the context it returns is nil.  The context that was
    passed in is a value that no call changes; the [transaction]s on the
    heap, the one it is bound to among them, are still there and still wrap
    the same [sql.Tx]. *)
Theorem C9_error_comes_with_nil_context ctx given w r e w' :
  StartTransaction s ctx w = Ret (r, Some e) w' ∨
  UseTransaction s ctx given w = Ret (r, Some e) w' ∨
  Commit s ctx w = Ret (r, Some e) w' ∨
  Rollback s ctx w = Ret (r, Some e) w' →
  r = None ∧
  ∀ p h, bound s ctx = Some (TransactionPtr p) → handles w !! p = Some h →
    ∃ h', handles w' !! p = Some h' ∧ tx h' = tx h.
Proof.
  intros Hrun.
  assert (keeps w w' ∧ (Some e ≠ None → r = None)) as [Hkeeps Hnil].
  { destruct Hrun as [Hrun|[Hrun|[Hrun|Hrun]]].
    - by apply StartTransaction_returns in Hrun.
    - by apply UseTransaction_returns in Hrun.
    - by apply finalize_returns in Hrun.
    - by apply finalize_returns in Hrun. }
  split; [by apply Hnil|]. intros p h _ Hp. by apply Hkeeps.
Qed.

(** ** Adopting a transaction *)

(** C8: [UseTransaction] returns "No transaction provided" for a nil
    [sql.Tx] and "Transaction already started" when the context has a
    binding; otherwise it returns a child of the context it was given,
    bound to a new [transaction] at depth 0 around the given [sql.Tx],
    leaves the heap as it was but for this new [transaction], and a second
    [UseTransaction] on the returned context fails. *)
Theorem C8_UseTransaction :
  (∀ ctx w,
    UseTransaction s ctx None w = Ret (None, Some (Qerror "No transaction provided")) w) ∧
  (∀ c v t w,
    lookup_ctx c (transactionKey s) = Some v →
    UseTransaction s (Some c) (Some t) w
    = Ret (None, Some (Qerror "Transaction already started")) w) ∧
  (∀ c t w,
    lookup_ctx c (transactionKey s) = None →
    let p := length (handles w) in
    let c' := WithValue c (transactionKey s) (Some (TransactionPtr p)) in
    let w' := set_handles
                (λ l, l ++ [{| tx := Some t; savePoint := 0; savePointMtx := false |}]) w in
    UseTransaction s (Some c) (Some t) w = Ret (Some c', None) w' ∧
    handles w' !! p = Some {| tx := Some t; savePoint := 0; savePointMtx := false |} ∧
    depth s (Some c') w' = Some 0 ∧
    (∀ q, (q < p)%nat → handles w' !! q = handles w !! q) ∧
    ∀ t' w'',
      UseTransaction s (Some c') (Some t') w''
      = Ret (None, Some (Qerror "Transaction already started")) w'').
Proof.
  split_and!.
  - done.
  - intros c v t w Hc. unfold UseTransaction, ctx_Value. unfold_M. by rewrite Hc.
  - intros c t w Hc p c' w'.
    assert (handles w' !! p = Some {| tx := Some t; savePoint := 0; savePointMtx := false |})
      as Hp by by apply list_lookup_middle.
    split_and!.
    + unfold UseTransaction, ctx_Value, new_transaction, context_WithValue. unfold_M.
      by rewrite Hc.
    + done.
    + unfold depth, bound, c'. cbn [lookup_ctx]. rewrite decide_True by done.
      by rewrite Hp.
    + intros q Hq. subst w'. cbn [handles set_handles]. by rewrite lookup_app_l.
    + intros t' w''. unfold UseTransaction, ctx_Value. unfold_M.
      subst c'. cbn [lookup_ctx]. by rewrite decide_True.
Qed.

(** ** A savepoint the database refused *)

(** C3: a nested [StartTransaction] whose SAVEPOINT statement the driver
    refuses returns the error with the depth counter one higher than
    before the call, while a nested [Commit] or [Rollback] whose statement
    is refused leaves the counter where it was. *)
Theorem C3_refused_savepoint_advances_depth ctx w p h t x e :
  live s ctx w p h t x → done x = false → answer w = Some e →
  savePoint h < uint64_max →
  depth s ctx w = Some (savePoint h) ∧
  (∃ w', StartTransaction s ctx w = Ret (None, Some e) w' ∧
         depth s ctx w' = Some (savePoint h + 1) ∧
         wire w' = wire w ++
           [CExec t (savepoint_stmt "SAVEPOINT SP" (savePoint h + 1))]) ∧
  (0 < savePoint h →
   (∃ w', Commit s ctx w = Ret (None, Some e) w' ∧
          depth s ctx w' = Some (savePoint h)) ∧
   (∃ w', Rollback s ctx w = Ret (None, Some e) w' ∧
          depth s ctx w' = Some (savePoint h))).
Proof.
  intros Hl Hd Ha Hmax.
  pose proof Hl as (Hb & Hp & Hm & _ & Ht & Hx).
  assert (p < length (handles w))%nat by eauto using lookup_lt_Some.
  unfold uint64_max in *. unfold depth. rewrite Hb.
  split_and!.
  - by rewrite Hp.
  - rewrite (StartTransaction_nested ctx w p h t x) by done. rewrite Hd, Ha.
    rewrite N.mod_small by lia.
    eexists. split; [done|]. by heap.
  - intros Hpos. split.
    + unfold Commit. rewrite (finalize_nested _ _ _ ctx w p h t x) by done.
      rewrite Hd. cbv zeta. rewrite Ha. eexists. split; [done|]. heap. by rewrite Hp.
    + unfold Rollback. rewrite (finalize_nested _ _ _ ctx w p h t x) by done.
      rewrite Hd. cbv zeta. rewrite Ha. eexists. split; [done|]. heap. by rewrite Hp.
Qed.

(** ** After the real transaction has ended *)

(** Without a binding the operations do not look at the context again. *)
Lemma unbound_alike c1 c2 w :
  lookup_ctx c1 (transactionKey s) = None →
  lookup_ctx c2 (transactionKey s) = None →
  effect (StartTransaction s (Some c1) w) = effect (StartTransaction s (Some c2) w) ∧
  effect (Commit s (Some c1) w) = effect (Commit s (Some c2) w) ∧
  effect (Rollback s (Some c1) w) = effect (Rollback s (Some c2) w) ∧
  (∀ given, effect (UseTransaction s (Some c1) given w)
            = effect (UseTransaction s (Some c2) given w)) ∧
  GetTransaction s (Some c1) w = GetTransaction s (Some c2) w.
Proof.
  intros H1 H2. split_and!.
  - rewrite !StartTransaction_root by done. cbv zeta. by destruct (answer w).
  - unfold Commit. by rewrite !finalize_unbound.
  - unfold Rollback. by rewrite !finalize_unbound.
  - intros [t|]; [|done].
    unfold UseTransaction, ctx_Value, new_transaction, context_WithValue. unfold_M.
    by rewrite H1, H2.
  - unfold GetTransaction, ctx_Value. unfold_M. by rewrite H1, H2.
Qed.

(** C5, as the code has it: the [Commit] or [Rollback] that ends the real
    transaction returns a new context in which the binding is absent, and
    every operation on that context does what it does on a context that
    never had a binding: [Commit] and [Rollback] return "No started
    transaction", [GetTransaction] returns nil, [StartTransaction] and
    [UseTransaction] start afresh.  The context that was passed in is still
    bound to the [transaction]: [StartTransaction], [Commit] and [Rollback]
    on it find the [transaction] and are refused by the finished [sql.Tx]
    with [ErrTxDone], sending nothing; [UseTransaction] on it returns
    "Transaction already started", or "No transaction provided" when it is
    given nil; [GetTransaction] on it returns the finished [sql.Tx]. *)
Theorem C5_returned_context_is_unbound op c w p h t x ctx' w' :
  closer op → live s (Some c) w p h t x → savePoint h = 0 →
  call s op (Some c) w = Ret (ctx', None) w' →
  (∃ c', ctx' = Some c' ∧ lookup_ctx c' (transactionKey s) = None ∧
     ∀ w'',
       Commit s ctx' w'' = Ret (None, Some (Qerror "No started transaction")) w'' ∧
       Rollback s ctx' w'' = Ret (None, Some (Qerror "No started transaction")) w'' ∧
       GetTransaction s ctx' w'' = Ret None w'' ∧
       effect (StartTransaction s ctx' w'')
       = effect (StartTransaction s (Some Background) w'') ∧
       ∀ given, effect (UseTransaction s ctx' given w'')
                = effect (UseTransaction s (Some Background) given w'')) ∧
  bound s (Some c) = Some (TransactionPtr p) ∧
  (∀ op', ∃ w'', call s op' (Some c) w' = Ret (None, Some ErrTxDone) w'' ∧
                 wire w'' = wire w') ∧
  (∀ given,
     UseTransaction s (Some c) given w'
     = Ret (None, Some (Qerror match given with
                               | Some _ => "Transaction already started"
                               | None => "No transaction provided"
                               end)) w') ∧
  GetTransaction s (Some c) w' = Ret (Some t) w' ∧
  txs w' !! t = Some (finished x).
Proof.
  intros Hop Hl Hzero Hrun.
  pose proof Hl as (Hb & Hp & Hm & Hmax & Ht & Hx).
  assert (done x = false) as Hd.
  { destruct (done x) eqn:Hd; [|done].
    destruct Hop as [-> | ->]; cbn [call] in Hrun;
      unfold Commit, Rollback, tx_Commit, tx_Rollback in Hrun;
      rewrite (finalize_root _ _ _ c w p h t x) in Hrun by done;
      rewrite Hd in Hrun; simplify_eq. }
  pose proof (call_closer_root op c w p h t x Hop Hl Hzero Hd) as Hroot.
  destruct (answer w) as [e|].
  { destruct Hroot as [w1 Hroot]. rewrite Hroot in Hrun. simplify_eq. }
  destruct Hroot as (c' & w1 & Hroot & Hc' & Hh & Htxs & Hwire & _).
  rewrite Hroot in Hrun. simplify_eq.
  split_and!.
  - exists c'. split_and!; [done..|]. intros w''.
    destruct (unbound_alike c' Background w'' Hc' eq_refl) as (HS & _ & _ & HU & HG).
    split_and!; [by apply finalize_unbound|by apply finalize_unbound| |done|done].
    rewrite HG. unfold GetTransaction, ctx_Value. by unfold_M.
  - done.
  - assert (live s (Some c) w' p h t (finished x)) as Hl'.
    { unfold live. rewrite Hh, Htxs.
      rewrite list_lookup_insert_eq by eauto using lookup_lt_Some. done. }
    intros [| |]; cbn [call].
    + rewrite (StartTransaction_nested _ w' p h t (finished x)) by done.
      cbn [done finished]. eexists. split; [done|]. by heap.
    + unfold Commit, tx_Commit.
      rewrite (finalize_root _ _ _ c w' p h t (finished x)) by done.
      cbn [done finished]. eexists. split; [done|]. by heap.
    + unfold Rollback, tx_Rollback.
      rewrite (finalize_root _ _ _ c w' p h t (finished x)) by done.
      cbn [done finished]. eexists. split; [done|]. by heap.
  - cbn [bound] in Hb. intros [t'|]; [|done].
    unfold UseTransaction, ctx_Value. unfold_M. by rewrite Hb.
  - cbn [bound] in Hb.
    unfold GetTransaction, ctx_Value, as_transaction, deref. unfold_M.
    rewrite Hb, Hh, Hp. by rewrite Ht.
  - rewrite Htxs. by rewrite list_lookup_insert_eq by eauto using lookup_lt_Some.
Qed.

(** ** Savepoint numbers *)

Lemma savepoint_stmt_inj verb : Inj (=) (=) (savepoint_stmt verb).
Proof.
  intros n1 n2 Heq. unfold savepoint_stmt, FormatUint in Heq.
  by apply (inj (String.app verb)), (inj pretty) in Heq.
Qed.

Lemma count_up_above d n : Forall (λ k, d < k) (count_up d n).
Proof.
  revert d. induction n as [|n IH]; intros d; simpl; constructor; [lia|].
  eapply Forall_impl; [apply IH|]. simpl. lia.
Qed.

Lemma count_up_sorted d n : StronglySorted N.lt (count_up d n).
Proof.
  revert d. induction n as [|n IH]; intros d; simpl; constructor; [done|].
  apply count_up_above.
Qed.

Lemma count_up_NoDup d n : NoDup (count_up d n).
Proof.
  revert d. induction n as [|n IH]; intros d; simpl; constructor; [|done].
  intros Hin. pose proof (count_up_above (d + 1) n) as Habove.
  rewrite Forall_forall in Habove. apply Habove in Hin. lia.
Qed.

Lemma nested_stmts_starts t d n :
  nested_stmts t d (replicate n OpStart)
  = (λ k, CExec t (savepoint_stmt "SAVEPOINT SP" k)) <$> count_up d n.
Proof. revert d. induction n as [|n IH]; intros d; simpl; [done|]. by rewrite IH. Qed.

(** C4, as the code has it: the number of a savepoint is the depth at
    which it is opened.  Nested [StartTransaction]s with no [Commit] or
    [Rollback] between them send SAVEPOINT SP(d+1), SP(d+2), ... from depth
    [d]: increasing, none of them twice.  A nested [Commit] or [Rollback]
    gives its number back, and the next nested [StartTransaction] sends it
    again. *)
Theorem C4_savepoint_numbers ctx w p h t x (n : nat) :
  live s ctx w p h t x → done x = false →
  savePoint h + N.of_nat n ≤ uint64_max →
  let ids := count_up (savePoint h) n in
  (all_ok (driver w) →
   ∃ w', calls s (replicate n OpStart) ctx w = Ret (ctx, None) w') ∧
  (∀ ctx' w', calls s (replicate n OpStart) ctx w = Ret (ctx', None) w' →
     wire w' = wire w ++ ((λ k, CExec t (savepoint_stmt "SAVEPOINT SP" k)) <$> ids)) ∧
  StronglySorted N.lt ids ∧
  NoDup (savepoint_stmt "SAVEPOINT SP" <$> ids) ∧
  (∀ op ctx' w', closer op → 0 < savePoint h →
     calls s [op; OpStart] ctx w = Ret (ctx', None) w' →
     wire w' = wire w ++ [CExec t (nested_stmt op (savePoint h));
                          CExec t (savepoint_stmt "SAVEPOINT SP" (savePoint h))]).
Proof.
  intros Hl Hd Hroom ids.
  destruct (starts_nested n (savePoint h) Hroom) as [Hfit _].
  pose proof (calls_nested (replicate n OpStart) [] ctx p t x w h Hl Hd Hfit) as Hrun.
  rewrite app_nil_r in Hrun. cbn [calls] in Hrun. unfold_M.
  split_and!.
  - intros Hok. destruct Hrun as [(e & w' & _ & Hno)|(w1 & _ & _ & _ & ->)]; [done|eauto].
  - intros ctx' w' Hret.
    destruct Hrun as [(e & w'' & Hrun & _)|(w1 & _ & Hwire & _ & Hrun)];
      rewrite Hrun in Hret; simplify_eq.
    by rewrite Hwire, nested_stmts_starts.
  - apply count_up_sorted.
  - pose proof (savepoint_stmt_inj "SAVEPOINT SP") as Hinj.
    apply (NoDup_fmap_2 _), count_up_NoDup.
  - intros op ctx' w' Hop Hpos Hret.
    pose proof Hl as (_ & _ & _ & Hmax & _).
    assert (stays_nested (savePoint h) [op; OpStart]) as Hfit2.
    { assert (next_depth op (savePoint h) = savePoint h - 1) as Hnext
        by by destruct Hop as [-> | ->].
      cbn [stays_nested]. rewrite Hnext. unfold uint64_max in *.
      destruct Hop as [-> | ->]; split_and!; (done || lia). }
    destruct (calls_nested [op; OpStart] [] ctx p t x w h Hl Hd Hfit2)
      as [(e & w'' & Hrun2 & _)|(w1 & _ & Hwire & _ & Hrun2)];
      rewrite app_nil_r in Hrun2; rewrite Hrun2 in Hret;
      cbn [calls] in Hret; unfold_M; simplify_eq.
    rewrite Hwire. cbn [nested_stmts nested_stmt].
    destruct Hop as [-> | ->]; cbn [next_depth nested_stmt];
      by rewrite N.sub_add by lia.
Qed.

(** ** Running a function in a transaction *)

(** C6, as the code has it: [DoInTransaction] returns the error of a
    failed [StartTransaction] and runs nothing else; when [f] fails it
    calls [Rollback] and returns the error of [f], whatever [Rollback]
    returned; when [f] succeeds and [Commit] fails it calls [Rollback] and
    returns the error of [Commit].  [Rollback] works at the depth that [f]
    left: when [DoInTransaction] opened the real transaction itself and [f]
    fails leaving the [transaction] at depth 0, its mutex free and the
    [sql.Tx] open, the one call that goes out after [f] is the ROLLBACK of
    that transaction, no COMMIT, and the [sql.Tx] is over. *)
Theorem C6_DoInTransaction ctx f w :
  (∀ r e w1,
     StartTransaction s ctx w = Ret (r, Some e) w1 →
     DoInTransaction s ctx f w = Ret (Some e) w1) ∧
  (∀ ctx1 w1 e w2 r rerr w3,
     StartTransaction s ctx w = Ret (ctx1, None) w1 →
     f ctx1 w1 = Ret (Some e) w2 →
     Rollback s ctx1 w2 = Ret (r, rerr) w3 →
     DoInTransaction s ctx f w = Ret (Some e) w3) ∧
  (∀ ctx1 w1 w2 r e w3 r' rerr w4,
     StartTransaction s ctx w = Ret (ctx1, None) w1 →
     f ctx1 w1 = Ret None w2 →
     Commit s ctx1 w2 = Ret (r, Some e) w3 →
     Rollback s ctx1 w3 = Ret (r', rerr) w4 →
     DoInTransaction s ctx f w = Ret (Some e) w4) ∧
  (∀ c ctx1 w1 e w2 h x,
     ctx = Some c → lookup_ctx c (transactionKey s) = None →
     StartTransaction s ctx w = Ret (ctx1, None) w1 →
     f ctx1 w1 = Ret (Some e) w2 →
     live s ctx1 w2 (length (handles w)) h (length (txs w)) x →
     savePoint h = 0 → done x = false →
     ∃ w3, DoInTransaction s ctx f w = Ret (Some e) w3 ∧
           wire w3 = wire w2 ++ [CRollback (length (txs w))] ∧
           txs w3 !! length (txs w) = Some (finished x)).
Proof.
  split_and!.
  - intros r e w1 Hstart. unfold DoInTransaction. unfold_M. by rewrite Hstart.
  - intros ctx1 w1 e w2 r rerr w3 Hstart Hf Hroll.
    unfold DoInTransaction. unfold_M. by rewrite Hstart, Hf, Hroll.
  - intros ctx1 w1 w2 r e w3 r' rerr w4 Hstart Hf Hcommit Hroll.
    unfold DoInTransaction. unfold_M. by rewrite Hstart, Hf, Hcommit, Hroll.
  - intros c ctx1 w1 e w2 h x -> Hc Hstart Hf Hl Hzero Hd.
    destruct ctx1 as [c1|]; [|by destruct Hl].
    pose proof Hl as (_ & _ & _ & _ & _ & Hx).
    assert (∃ r rerr w3, Rollback s (Some c1) w2 = Ret (r, rerr) w3 ∧
              wire w3 = wire w2 ++ [CRollback (length (txs w))] ∧
              txs w3 = <[length (txs w) := finished x]> (txs w2))
      as (r & rerr & w3 & Hroll & Hwire & Htxs).
    { unfold Rollback, tx_Rollback. rewrite (finalize_root _ _ _ c1 w2 _ h _ x) by done.
      rewrite Hd. cbv zeta.
      destruct (answer w2); eexists _, _, _; (split; [reflexivity|]); by heap. }
    exists w3. split_and!; [|done|].
    + unfold DoInTransaction. unfold_M. by rewrite Hstart, Hf, Hroll.
    + rewrite Htxs. by rewrite list_lookup_insert_eq by eauto using lookup_lt_Some.
Qed.

End Facts.


(** ** Goroutines on one [transaction] *)

Lemma count_cons f p l :
  count f (p :: l) = ((if f p then 1 else 0) + count f l)%nat.
Proof. unfold count. rewrite filter_cons. by destruct (f p). Qed.

Lemma count_replicate f n p :
  count f (replicate n p) = if f p then n else 0%nat.
Proof.
  induction n as [|n IH]; simpl; [by destruct (f p)|].
  rewrite count_cons, IH. by destruct (f p).
Qed.

Lemma count_insert f l i old new :
  l !! i = Some old →
  (count f (<[i := new]> l) + (if f old then 1 else 0)
   = count f l + (if f new then 1 else 0))%nat.
Proof.
  revert i. induction l as [|p l IH]; intros [|i] Hi; simplify_eq/=.
  - rewrite !count_cons. destruct (f old), (f new); lia.
  - rewrite !count_cons. specialize (IH i Hi). lia.
Qed.

Lemma count_one f l i p : l !! i = Some p → f p = true → (1 ≤ count f l)%nat.
Proof.
  revert i. induction l as [|q l IH]; intros [|i] Hi Hp; simplify_eq/=.
  - rewrite count_cons, Hp. lia.
  - rewrite count_cons. specialize (IH i Hi Hp). lia.
Qed.

Lemma count_two f l i j p q :
  i ≠ j → l !! i = Some p → l !! j = Some q → f p = true → f q = true →
  (2 ≤ count f l)%nat.
Proof.
  revert i j. induction l as [|a l IH]; intros [|i] [|j] Hne Hi Hj Hp Hq;
    simplify_eq/=; rewrite count_cons.
  - rewrite Hp. pose proof (count_one f l j q Hj Hq). lia.
  - rewrite Hq. pose proof (count_one f l i p Hi Hp). lia.
  - assert (i ≠ j) as Hne' by congruence. specialize (IH i j Hne' Hi Hj Hp Hq). lia.
Qed.

(** With the invariant, two goroutines between [Lock] and [Unlock] are
    one and the same. *)
Lemma Inv_alone st nums i j p q :
  Inv st nums → sh_pcs st !! i = Some p → sh_pcs st !! j = Some q →
  critical p = true → critical q = true → i = j.
Proof.
  intros HI Hi Hj Hp Hq. destruct (decide (i = j)) as [|Hne]; [done|].
  pose proof (count_two critical _ i j p q Hne Hi Hj Hp Hq) as Htwo.
  rewrite (inv_mutex _ _ HI) in Htwo. destruct (sh_held st); lia.
Qed.

Lemma Inv_start n d over :
  d + N.of_nat n ≤ uint64_max → Inv (goroutines n d over) [].
Proof.
  intros Hroom. split; cbn [goroutines sh_sent sh_pcs sh_savePoint sh_held].
  - done.
  - constructor.
  - constructor.
  - by rewrite count_replicate.
  - intros i seen Hi. apply lookup_replicate in Hi as [? _]. done.
  - intros i Hi. apply lookup_replicate in Hi as [? _]. done.
  - by rewrite count_replicate.
Qed.

Lemma lookup_moved (l : list pc) i j p q :
  <[i := p]> l !! j = Some q → (i = j ∧ p = q) ∨ (i ≠ j ∧ l !! j = Some q).
Proof. intros Hj. apply list_lookup_insert_Some in Hj. tauto. Qed.

(** One step of one goroutine keeps the invariant; the numbers sent so
    far stay, at most one is added. *)
Lemma step_Inv i st nums :
  Inv st nums → ∃ more, Inv (step i st) (nums ++ more).
Proof.
  intros HI. pose proof HI as [Hsent Hsorted Hbelow Hmutex Hseen Hexec Hroom].
  unfold step. destruct (sh_pcs st !! i) as [p|] eqn:Hi;
    [|exists []; by rewrite app_nil_r].
  assert (∀ j q p', critical q = true → critical p = true →
            <[i := p']> (sh_pcs st) !! j = Some q → i = j) as Hsole.
  { intros j q p' Hq Hp Hj. apply lookup_moved in Hj as [[? _]|[_ Hj]]; [done|].
    by apply (Inv_alone st nums i j p q). }
  destruct p as [| |seen| | |].
  - (* Lock *)
    destruct (sh_held st) eqn:Hheld; [exists []; by rewrite app_nil_r|].
    rewrite ?Hheld in Hmutex.
    assert (∀ j q, critical q = true → sh_pcs st !! j = Some q → False) as Hnone.
    { intros j q Hq Hj. pose proof (count_one critical _ j q Hj Hq). lia. }
    exists []. rewrite app_nil_r.
    pose proof (count_insert critical _ i _ AtLoad Hi) as Hc.
    pose proof (count_insert pending _ i _ AtLoad Hi) as Hp.
    cbn [critical pending] in *.
    split; cbn [move sh_sent sh_pcs sh_savePoint sh_held] in *.
    + by rewrite app_nil_r.
    + done.
    + done.
    + lia.
    + intros j seen Hj. apply lookup_moved in Hj as [[_ ?]|[_ Hj]]; [done|].
      by destruct (Hnone j (AtStore seen)).
    + intros j Hj. apply lookup_moved in Hj as [[_ ?]|[_ Hj]]; [done|].
      by destruct (Hnone j AtExec).
    + replace (count pending (<[i:=AtLoad]> (sh_pcs st)))
        with (count pending (sh_pcs st)) by lia. done.
  - (* the read of t.savePoint *)
    exists []. rewrite app_nil_r.
    pose proof (count_insert critical _ i _ (AtStore (sh_savePoint st)) Hi) as Hc.
    pose proof (count_insert pending _ i _ (AtStore (sh_savePoint st)) Hi) as Hp.
    cbn [critical pending] in *.
    split; cbn [move sh_sent sh_pcs sh_savePoint sh_held] in *.
    + by rewrite app_nil_r.
    + done.
    + done.
    + rewrite <- Hmutex. lia.
    + intros j seen Hj. apply lookup_moved in Hj as [[_ ?]|[_ Hj]]; [congruence|eauto].
    + intros j Hj. apply lookup_moved in Hj as [[_ ?]|[_ Hj]]; [done|eauto].
    + replace (count pending (<[i:=AtStore (sh_savePoint st)]> (sh_pcs st)))
        with (count pending (sh_pcs st)) by lia. done.
  - (* the write of t.savePoint *)
    exists []. rewrite app_nil_r.
    pose proof (Hseen i seen Hi) as ->.
    pose proof (count_insert critical _ i _ AtExec Hi) as Hc.
    pose proof (count_insert pending _ i _ AtExec Hi) as Hp.
    pose proof (count_one pending _ i _ Hi eq_refl) as Hone.
    cbn [critical pending] in *. unfold uint64_max in *.
    assert ((sh_savePoint st + 1) mod 2 ^ 64 = sh_savePoint st + 1) as Hmod
      by (apply N.mod_small; lia).
    split; cbn [move sh_sent sh_pcs sh_savePoint sh_held] in *; rewrite ?Hmod.
    + by rewrite app_nil_r.
    + done.
    + eapply Forall_impl; [done|]. simpl. lia.
    + rewrite <- Hmutex. lia.
    + intros j seen' Hj.
      pose proof (Hsole j (AtStore seen') AtExec eq_refl eq_refl Hj) as <-.
      by rewrite list_lookup_insert_eq in Hj by eauto using lookup_lt_Some.
    + intros j _. eapply Forall_impl; [done|]. simpl. lia.
    + unfold uint64_max. lia.
  - (* Exec *)
    pose proof (count_insert critical _ i _ AtUnlock Hi) as Hc.
    pose proof (count_insert pending _ i _ AtUnlock Hi) as Hp.
    pose proof (Hexec i Hi) as Hless.
    assert (∀ j seen, <[i:=AtUnlock]> (sh_pcs st) !! j = Some (AtStore seen) →
              seen = sh_savePoint st) as Hseen'.
    { intros j seen Hj. apply lookup_moved in Hj as [[_ ?]|[_ Hj]]; [done|eauto]. }
    assert (∀ j, <[i:=AtUnlock]> (sh_pcs st) !! j = Some AtExec → False) as Hexec'.
    { intros j Hj.
      pose proof (Hsole j AtExec AtUnlock eq_refl eq_refl Hj) as <-.
      by rewrite list_lookup_insert_eq in Hj by eauto using lookup_lt_Some. }
    cbn [critical pending] in *.
    destruct (sh_done st).
    + exists []. rewrite app_nil_r.
      split; cbn [move sh_sent sh_pcs sh_savePoint sh_held] in *.
      * by rewrite app_nil_r.
      * done.
      * done.
      * rewrite <- Hmutex. lia.
      * done.
      * intros j Hj. by destruct (Hexec' j).
      * replace (count pending (<[i:=AtUnlock]> (sh_pcs st)))
          with (count pending (sh_pcs st)) by lia. done.
    + exists [sh_savePoint st].
      split; cbn [move sh_sent sh_pcs sh_savePoint sh_held] in *.
      * by rewrite Hsent, fmap_app.
      * apply StronglySorted_app_2; [|done|repeat constructor].
        intros k1 k2 Hk1 Hk2. apply list_elem_of_singleton in Hk2 as ->.
        rewrite Forall_forall in Hless. by apply Hless.
      * apply Forall_app. split; [done|]. by repeat constructor.
      * rewrite <- Hmutex. lia.
      * done.
      * intros j Hj. by destruct (Hexec' j).
      * replace (count pending (<[i:=AtUnlock]> (sh_pcs st)))
          with (count pending (sh_pcs st)) by lia. done.
  - (* Unlock *)
    destruct (sh_held st) eqn:Hheld; [|exists []; by rewrite app_nil_r].
    rewrite ?Hheld in Hmutex.
    exists []. rewrite app_nil_r.
    pose proof (count_insert critical _ i _ Returned Hi) as Hc.
    pose proof (count_insert pending _ i _ Returned Hi) as Hp.
    cbn [critical pending] in *.
    split; cbn [move sh_sent sh_pcs sh_savePoint sh_held] in *.
    + by rewrite app_nil_r.
    + done.
    + done.
    + lia.
    + intros j seen' Hj.
      pose proof (Hsole j (AtStore seen') Returned eq_refl eq_refl Hj) as <-.
      by rewrite list_lookup_insert_eq in Hj by eauto using lookup_lt_Some.
    + intros j Hj.
      pose proof (Hsole j AtExec Returned eq_refl eq_refl Hj) as <-.
      by rewrite list_lookup_insert_eq in Hj by eauto using lookup_lt_Some.
    + replace (count pending (<[i:=Returned]> (sh_pcs st)))
        with (count pending (sh_pcs st)) by lia. done.
  - exists []. by rewrite app_nil_r.
Qed.

Lemma run_schedule_Inv schedule : ∀ st nums,
  Inv st nums → ∃ more, Inv (run_schedule schedule st) (nums ++ more).
Proof.
  induction schedule as [|i schedule IH]; intros st nums HI.
  - exists []. by rewrite app_nil_r.
  - destruct (step_Inv i st nums HI) as [more1 HI1].
    destruct (IH _ _ HI1) as [more2 HI2].
    exists (more1 ++ more2). by rewrite app_assoc.
Qed.

Lemma StronglySorted_lt_NoDup (l : list N) : StronglySorted N.lt l → NoDup l.
Proof.
  induction 1 as [|k l _ IH Hall]; constructor; [|done].
  intros Hin. rewrite Forall_forall in Hall. apply Hall in Hin. lia.
Qed.

(** C10, as the code has it: goroutines that call [StartTransaction] on
    contexts bound to the same [transaction], while none calls [Commit] or
    [Rollback] on it, under every schedule of their steps: the SAVEPOINT
    statements sent so far carry increasing numbers, and no statement was
    sent twice. *)
Theorem C10_concurrent_starts_do_not_collide (n : nat) d over schedule :
  d + N.of_nat n ≤ uint64_max →
  let st := run_schedule schedule (goroutines n d over) in
  NoDup (sh_sent st) ∧
  ∃ nums, sh_sent st = savepoint_stmt "SAVEPOINT SP" <$> nums ∧
          StronglySorted N.lt nums.
Proof.
  intros Hroom st.
  destruct (run_schedule_Inv schedule _ _ (Inv_start n d over Hroom)) as [nums HI].
  rewrite app_nil_l in HI. fold st in HI.
  destruct HI as [Hsent Hsorted _ _ _ _ _].
  split; [|eauto].
  pose proof (savepoint_stmt_inj "SAVEPOINT SP") as Hinj.
  rewrite Hsent. apply (NoDup_fmap_2 _). by apply StronglySorted_lt_NoDup.
Qed.

(** ** Concrete runs *)

Lemma fresh_unbound : lookup_ctx Background (transactionKey storage) = None.
Proof. reflexivity. Defined.

Lemma open_world_live d answers :
  d ≤ uint64_max →
  live storage (Some bound_context) (open_world d answers) 0 (open_handle d) 0 open_tx.
Proof. intros Hd. repeat split. exact Hd. Defined.

Lemma uint64_holds_0 : 0 ≤ uint64_max.
Proof. by vm_compute. Defined.

Lemma uint64_holds_1 : 1 ≤ uint64_max.
Proof. by vm_compute. Defined.

(** C1 at work: a first [StartTransaction], two nested ones, then a
    [Rollback]: depth 1; with two more [Commit]s and a last one: no
    binding. *)
Lemma C1_witness :
  (∃ ctx' w',
     calls storage (OpStart :: replicate 2 OpStart ++ [OpRollback])
       (Some Background) fresh_world = Ret (ctx', None) w' ∧
     depth storage ctx' w' = Some 1) ∧
  (∃ ctx' w',
     calls storage (OpStart :: replicate 2 OpStart ++ [OpRollback; OpCommit; OpCommit])
       (Some Background) fresh_world = Ret (ctx', None) w' ∧
     bound storage ctx' = None).
Proof.
  assert (N.of_nat 2 ≤ uint64_max) as Hn by by vm_compute.
  split.
  - destruct (C1_depth_counts_nesting storage Background fresh_world 2 [OpRollback]
                fresh_unbound Hn) as [Hreturns Hdepth].
    { repeat (apply Forall_cons_2; [by (left + right)|]). apply Forall_nil_2. }
    destruct Hreturns as (ctx' & w' & Hrun); [constructor|simpl; lia|].
    exists ctx', w'. split; [exact Hrun|].
    apply (Hdepth ctx' w' Hrun). simpl. lia.
  - destruct (C1_depth_counts_nesting storage Background fresh_world 2
                [OpRollback; OpCommit; OpCommit] fresh_unbound Hn) as [Hreturns Hdepth].
    { repeat (apply Forall_cons_2; [by (left + right)|]). apply Forall_nil_2. }
    destruct Hreturns as (ctx' & w' & Hrun); [constructor|simpl; lia|].
    exists ctx', w'. split; [exact Hrun|].
    apply (Hdepth ctx' w' Hrun). simpl. lia.
Defined.

(** C2 at work on a new connection. *)
Lemma C2_witness :
  ∃ ctx' w',
    calls storage [OpStart; OpStart; OpRollback; OpCommit] (Some Background) fresh_world
    = Ret (ctx', None) w' ∧
    sql_of <$> wire w' = ["BEGIN"; "SAVEPOINT SP1"; "ROLLBACK TO SAVEPOINT SP1"; "COMMIT"].
Proof.
  destruct (C2_scenario_A storage Background fresh_world fresh_unbound)
    as (ctx' & w' & Hrun & _ & Hsql); [constructor|].
  exists ctx', w'. split; [exact Hrun|exact Hsql].
Defined.

(** C3 at work: at depth 0 the driver refuses SAVEPOINT SP1 with error
    1213; the depth is 1 afterwards. *)
Lemma C3_witness :
  depth storage (Some bound_context) (open_world 0 [Some 1213%nat]) = Some 0 ∧
  ∃ w', StartTransaction storage (Some bound_context) (open_world 0 [Some 1213%nat])
        = Ret (None, Some (DriverError 1213)) w' ∧
        depth storage (Some bound_context) w' = Some 1.
Proof.
  destruct (C3_refused_savepoint_advances_depth storage (Some bound_context)
              (open_world 0 [Some 1213%nat]) 0 (open_handle 0) 0 open_tx (DriverError 1213)
              (open_world_live 0 _ uint64_holds_0) eq_refl eq_refl)
    as (Hbefore & (w' & Hrun & Hafter & _) & _).
  { by vm_compute. }
  split; [exact Hbefore|]. exists w'. split; [exact Hrun|exact Hafter].
Defined.

(** What follows the refused savepoint: the next [Commit] releases a
    savepoint that the database never had. *)
Lemma C3_release_of_missing_savepoint :
  ∃ w1 r w2,
    StartTransaction storage (Some bound_context) (open_world 0 [Some 1213%nat])
    = Ret (None, Some (DriverError 1213)) w1 ∧
    wire w1 = [CExec 0 "SAVEPOINT SP1"] ∧
    depth storage (Some bound_context) w1 = Some 1 ∧
    Commit storage (Some bound_context) w1 = Ret r w2 ∧
    wire w2 = [CExec 0 "SAVEPOINT SP1"; CExec 0 "RELEASE SAVEPOINT SP1"].
Proof. eexists _, _, _. by vm_compute. Qed.

(** And in nested [DoInTransaction]s: the inner one fails to open its
    savepoint, the outer one then rolls back to that savepoint instead of
    rolling back the real transaction, which stays open. *)
Lemma C3_real_transaction_left_open :
  ∃ w',
    DoInTransaction storage (Some Background) inner_scope
      (set_driver (λ _, [None; Some 1213%nat]) fresh_world)
    = Ret (Some (DriverError 1213)) w' ∧
    sql_of <$> wire w' = ["BEGIN"; "SAVEPOINT SP1"; "ROLLBACK TO SAVEPOINT SP1"] ∧
    txs w' = [open_tx].
Proof. eexists. by vm_compute. Qed.

(** C4 refuted as written: SAVEPOINT SP1 goes out twice. *)
Lemma C4_counterexample :
  ∃ ctx' w',
    calls storage [OpStart; OpStart; OpCommit; OpStart] (Some Background) fresh_world
    = Ret (ctx', None) w' ∧
    issued_savepoints w' = ["SAVEPOINT SP1"; "SAVEPOINT SP1"] ∧
    ¬ NoDup (issued_savepoints w').
Proof.
  eexists _, _. split; [by vm_compute|]. split; [by vm_compute|].
  intros Hdup. vm_compute in Hdup. apply NoDup_cons in Hdup as [Hin _].
  apply Hin. by left.
Qed.

(** C4 as amended, at work: three nested [StartTransaction]s from depth 1
    send SP2, SP3, SP4. *)
Lemma C4_witness :
  ∃ w', calls storage (replicate 3 OpStart) (Some bound_context) (open_world 1 [])
        = Ret (Some bound_context, None) w' ∧
        sql_of <$> wire w' = ["SAVEPOINT SP2"; "SAVEPOINT SP3"; "SAVEPOINT SP4"].
Proof.
  destruct (C4_savepoint_numbers storage (Some bound_context) (open_world 1 []) 0
              (open_handle 1) 0 open_tx 3 (open_world_live 1 _ uint64_holds_1) eq_refl)
    as (Hreturns & Hwire & _).
  { by vm_compute. }
  destruct Hreturns as [w' Hrun]; [constructor|].
  exists w'. split; [exact Hrun|]. by rewrite (Hwire _ _ Hrun).
Defined.

(** C5 refuted as written: after the [Commit] that ended the real
    transaction, [Commit] on the context that [StartTransaction] had
    returned is refused with [ErrTxDone], not with "No started
    transaction", and [StartTransaction] on it sends no BEGIN. *)
Lemma C5_counterexample :
  ∃ ctx1 w1 ctx2 w2 w3 w4,
    StartTransaction storage (Some Background) fresh_world = Ret (ctx1, None) w1 ∧
    depth storage ctx1 w1 = Some 0 ∧
    Commit storage ctx1 w1 = Ret (ctx2, None) w2 ∧
    Commit storage ctx1 w2 = Ret (None, Some ErrTxDone) w3 ∧
    ErrTxDone ≠ Qerror "No started transaction" ∧
    StartTransaction storage ctx1 w2 = Ret (None, Some ErrTxDone) w4 ∧
    wire w4 = wire w2 ∧
    effect (StartTransaction storage ctx1 w2)
    ≠ effect (StartTransaction storage (Some Background) w2).
Proof. eexists _, _, _, _, _, _. by vm_compute. Qed.

(** C5 as amended, at work. *)
Lemma C5_witness :
  ∃ c' w' w'',
    Commit storage (Some bound_context) (open_world 0 []) = Ret (Some c', None) w' ∧
    Commit storage (Some c') w'
    = Ret (None, Some (Qerror "No started transaction")) w' ∧
    Commit storage (Some bound_context) w' = Ret (None, Some ErrTxDone) w'' ∧
    UseTransaction storage (Some bound_context) (Some 0%nat) w'
    = Ret (None, Some (Qerror "Transaction already started")) w' ∧
    GetTransaction storage (Some bound_context) w' = Ret (Some 0%nat) w'.
Proof.
  assert (∃ ctx' w', call storage OpCommit (Some bound_context) (open_world 0 [])
                     = Ret (ctx', None) w') as (ctx' & w' & Hrun)
    by (eexists _, _; by vm_compute).
  destruct (C5_returned_context_is_unbound storage OpCommit bound_context
              (open_world 0 []) 0 (open_handle 0) 0 open_tx ctx' w'
              (or_introl eq_refl) (open_world_live 0 _ uint64_holds_0) eq_refl Hrun)
    as ((c' & -> & _ & Habsent) & _ & Hold & Hadopt & Hget & _).
  destruct (Hold OpCommit) as (w'' & Hrefused & _).
  exists c', w', w''. split; [exact Hrun|]. split; [apply Habsent|].
  split; [exact Hrefused|]. split; [exact (Hadopt (Some 0%nat))|exact Hget].
Defined.

(** C6 refuted as written: at top level, around a function that fails
    with a savepoint left open, [DoInTransaction] rolls back to that
    savepoint and the real transaction stays open; around a function that
    fails after it has committed, the real transaction is committed and no
    ROLLBACK goes out. *)
Lemma C6_counterexample :
  (∃ w', DoInTransaction storage (Some Background) leaves_savepoint fresh_world
         = Ret (Some (Qerror "boom")) w' ∧
         sql_of <$> wire w' = ["BEGIN"; "SAVEPOINT SP1"; "ROLLBACK TO SAVEPOINT SP1"] ∧
         txs w' = [open_tx]) ∧
  (∃ w', DoInTransaction storage (Some Background) commits_and_fails fresh_world
         = Ret (Some (Qerror "boom")) w' ∧
         sql_of <$> wire w' = ["BEGIN"; "COMMIT"] ∧
         txs w' = [over_tx]).
Proof. split; eexists; by vm_compute. Qed.

(** C6 as amended, at work: [DoInTransaction] around a function that
    fails. *)
Lemma C6_witness :
  ∃ w', DoInTransaction storage (Some Background) failing fresh_world
        = Ret (Some (Qerror "boom")) w' ∧
        sql_of <$> wire w' = ["BEGIN"; "ROLLBACK"].
Proof.
  destruct (StartTransaction_root_live storage Background fresh_world fresh_unbound eq_refl)
    as (ctx1 & w1 & Hstart & Hl & Hwire1 & _).
  destruct (C6_DoInTransaction storage (Some Background) failing fresh_world)
    as (_ & _ & _ & Hscenario).
  destruct (Hscenario Background ctx1 w1 (Qerror "boom") w1 _ _
              eq_refl fresh_unbound Hstart eq_refl Hl eq_refl eq_refl)
    as (w3 & Hrun & Hwire3 & _).
  exists w3. split; [exact Hrun|]. by rewrite Hwire3, Hwire1.
Defined.

(** C7 at work on a context that never had a binding. *)
Lemma C7_witness :
  Commit storage (Some Background) fresh_world
  = Ret (None, Some (Qerror "No started transaction")) fresh_world ∧
  Rollback storage (Some Background) fresh_world
  = Ret (None, Some (Qerror "No started transaction")) fresh_world.
Proof. exact (C7_no_started_transaction storage Background fresh_world fresh_unbound). Defined.

(** C8 at work: [UseTransaction] on a bound context, on a new one, and
    again on the context it returned. *)
Lemma C8_witness :
  UseTransaction storage (Some bound_context) (Some 0%nat) (open_world 0 [])
  = Ret (None, Some (Qerror "Transaction already started")) (open_world 0 []) ∧
  ∃ c' w',
    UseTransaction storage (Some Background) (Some 7%nat) fresh_world
    = Ret (Some c', None) w' ∧
    depth storage (Some c') w' = Some 0 ∧
    UseTransaction storage (Some c') (Some 7%nat) w'
    = Ret (None, Some (Qerror "Transaction already started")) w'.
Proof.
  destruct (C8_UseTransaction storage) as (_ & Hbound & Hnew).
  split.
  - exact (Hbound bound_context (TransactionPtr 0) 0%nat (open_world 0 []) eq_refl).
  - destruct (Hnew Background 7%nat fresh_world fresh_unbound)
      as (Hrun & _ & Hdepth & _ & Hagain).
    eexists _, _. split; [exact Hrun|]. split; [exact Hdepth|apply Hagain].
Defined.

(** C9 at work on the refused savepoint. *)
Lemma C9_witness :
  ∃ r w',
    StartTransaction storage (Some bound_context) (open_world 0 [Some 1213%nat])
    = Ret (r, Some (DriverError 1213)) w' ∧
    r = None ∧
    ∃ h', handles w' !! 0%nat = Some h' ∧ tx h' = Some 0%nat.
Proof.
  assert (∃ r w', StartTransaction storage (Some bound_context)
                    (open_world 0 [Some 1213%nat])
                  = Ret (r, Some (DriverError 1213)) w') as (r & w' & Hrun)
    by (eexists _, _; by vm_compute).
  destruct (C9_error_comes_with_nil_context storage (Some bound_context) None
              (open_world 0 [Some 1213%nat]) r (DriverError 1213) w' (or_introl Hrun))
    as [Hnil Hkept].
  exists r, w'. split; [exact Hrun|]. split; [exact Hnil|].
  exact (Hkept 0%nat (open_handle 0) eq_refl eq_refl).
Defined.

(** The goroutines that only start transactions move in [Mixed] as they
    do in [Shared]. *)
Lemma mixed_step_starting i st : mixed_step i (starting st) = starting (step i st).
Proof.
  unfold mixed_step, step.
  cbn [starting mx_procs mx_savePoint mx_held mx_done]. rewrite list_lookup_fmap.
  destruct (sh_pcs st !! i) as [[| |seen| | |]|] eqn:Hi; cbn [fmap option_fmap option_map];
    try destruct (sh_held st) eqn:Hheld; try destruct (sh_done st) eqn:Hdone;
    try reflexivity;
    unfold go, move, starting;
    cbn [mx_procs mx_savePoint mx_held mx_done mx_sent sh_pcs sh_savePoint sh_held
         sh_done sh_sent verb];
    rewrite ?list_fmap_insert, ?Hheld, ?Hdone; reflexivity.
Qed.

Lemma run_mixed_starting schedule : ∀ st,
  run_mixed schedule (starting st) = starting (run_schedule schedule st).
Proof.
  induction schedule as [|i schedule IH]; intros st; [done|].
  cbn [run_mixed run_schedule foldl]. rewrite mixed_step_starting. apply IH.
Qed.

(** C10 refuted as written: goroutines 0 and 1 call [StartTransaction]
    and goroutine 2 calls [Commit], at depth 0.  Goroutine 1 asks for the
    mutex while goroutine 0 holds it and gets it after goroutine 2 has
    released the savepoint of goroutine 0: both send SAVEPOINT SP1. *)
Lemma C10_counterexample :
  let start := mixed_goroutines [OpStart; OpStart; OpCommit] 0 false in
  let schedule := [0; 1; 0; 0; 0; 0; 2; 2; 2; 2; 2; 2; 1; 1; 1; 1; 1]%nat in
  mx_procs (run_mixed (take 2 schedule) start)
  = [(OpStart, At AtLoad); (OpStart, At AtLock); (OpCommit, At AtLock)] ∧
  mx_procs (run_mixed schedule start)
  = [(OpStart, At Returned); (OpStart, At Returned); (OpCommit, At Returned)] ∧
  mx_sent (run_mixed schedule start)
  = ["SAVEPOINT SP1"; "RELEASE SAVEPOINT SP1"; "SAVEPOINT SP1"] ∧
  ¬ NoDup (savepoints_sent (run_mixed schedule start)).
Proof.
  split; [by vm_compute|]. split; [by vm_compute|]. split; [by vm_compute|].
  intros Hdup. vm_compute in Hdup. apply NoDup_cons in Hdup as [Hin _].
  apply Hin. by left.
Qed.

(** C10 as amended, at work: two goroutines, the second one asking for
    the mutex while the first one holds it. *)
Lemma C10_witness :
  let st := run_schedule [0; 1; 0; 1; 0; 0; 1; 0; 1; 1; 1; 1; 1]%nat (goroutines 2 0 false) in
  sh_pcs st = [Returned; Returned] ∧
  sh_sent st = ["SAVEPOINT SP1"; "SAVEPOINT SP2"] ∧
  NoDup (sh_sent st).
Proof.
  split; [by vm_compute|]. split; [by vm_compute|].
  destruct (C10_concurrent_starts_do_not_collide 2 0 false
              [0; 1; 0; 1; 0; 0; 1; 0; 1; 1; 1; 1; 1]%nat) as [Hdistinct _].
  - by vm_compute.
  - exact Hdistinct.
Defined.


(** * Further properties *)

Section More.
Context `{Timelog}.
Variable s : MySQL.

(** ** Well-nested calls *)

(** X1: calls that work on savepoints, in any order that never closes
    more than was opened: the run returns when the driver accepts every
    call; when it returned without error the context is the one passed in,
    the depth is the starting depth plus the starts minus the closing
    calls, the statements sent are the savepoint statements of the calls
    in order, and the real transaction is still open. *)
Theorem nested_calls_spare_the_real_transaction ops ctx w p h t x :
  live s ctx w p h t x → done x = false → stays_nested (savePoint h) ops →
  (all_ok (driver w) → ∃ w', calls s ops ctx w = Ret (ctx, None) w') ∧
  ∀ ctx' w', calls s ops ctx w = Ret (ctx', None) w' →
    ctx' = ctx ∧
    depth s ctx w' = Some (depth_after (savePoint h) ops) ∧
    wire w' = wire w ++ nested_stmts t (savePoint h) ops ∧
    txs w' !! t = Some x.
Proof.
  intros Hl Hd Hfit.
  pose proof (calls_nested s ops [] ctx p t x w h Hl Hd Hfit) as Hrun.
  rewrite app_nil_r in Hrun. cbn [calls] in Hrun. unfold_M.
  split.
  - intros Hok. destruct Hrun as [(e & w' & _ & Hno)|(w1 & _ & _ & _ & ->)]; [done|eauto].
  - intros ctx' w' Hret.
    destruct Hrun as [(e & w'' & Hrun & _)|(w1 & Hl1 & Hwire & _ & Hrun)];
      rewrite Hrun in Hret; simplify_eq.
    destruct Hl1 as (Hb & Hp & _ & _ & _ & Hx).
    split_and!; [done| |done|done].
    unfold depth. by rewrite Hb, Hp.
Qed.

(** X2: a whole scope.  From a context without binding, with a driver
    that accepts every call: [StartTransaction], then calls that work on
    savepoints and close all they open, then one [Commit] or [Rollback].
    The run returns a context without binding; BEGIN, the savepoint
    statements in order and one COMMIT or ROLLBACK were sent, nothing
    else, and the [sql.Tx] is over. *)
Theorem well_nested_scope ops op c w :
  lookup_ctx c (transactionKey s) = None →
  stays_nested 0 ops → depth_after 0 ops = 0 → closer op →
  all_ok (driver w) →
  ∃ c' w',
    calls s (OpStart :: ops ++ [op]) (Some c) w = Ret (Some c', None) w' ∧
    lookup_ctx c' (transactionKey s) = None ∧
    wire w' = wire w ++ CBegin (db s) ::
                nested_stmts (length (txs w)) 0 ops ++ [closing_call op (length (txs w))] ∧
    txs w' !! length (txs w) = Some {| conn := db s; done := true |}.
Proof.
  intros Hc Hfit Hzero Hop Hok.
  destruct (StartTransaction_root_live s c w Hc (answer_all_ok w Hok))
    as (ctx1 & w1 & Hstart & Hl & Hwire1 & Hdrv1).
  assert (all_ok (driver w1)) as Hok1 by (rewrite Hdrv1; by apply all_ok_drop).
  destruct (calls_nested s ops [op] ctx1 _ _ _ w1 _ Hl eq_refl Hfit)
    as [(e & w' & _ & Hno)|(w2 & Hl2 & Hwire2 & Hok2 & Hrun)]; [done|].
  cbn [savePoint] in Hl2, Hwire2. rewrite Hzero in Hl2.
  destruct ctx1 as [c1|]; [|by destruct Hl2].
  pose proof (call_closer_root s op c1 w2 _ _ _ _ Hop Hl2 eq_refl eq_refl) as Hroot.
  rewrite (answer_all_ok w2) in Hroot by auto.
  destruct Hroot as (c' & w3 & Hclose & Hc' & _ & Htxs & Hwire3 & _).
  exists c', w3. split_and!.
  - cbn [calls call]. unfold_M. rewrite Hstart. cbn beta iota.
    rewrite Hrun. cbn [calls]. unfold_M. by rewrite Hclose.
  - done.
  - rewrite Hwire3, Hwire2, Hwire1. rewrite <- !app_assoc. cbn [app].
    by destruct Hop as [-> | ->].
  - rewrite Htxs. destruct Hl2 as (_ & _ & _ & _ & _ & Hx).
    by rewrite list_lookup_insert_eq by eauto using lookup_lt_Some.
Qed.

(** ** The real transaction of a context *)

(** A run that opened a real transaction and then worked on savepoints. *)
Lemma opened_then_nested ops rest c w ctx' w' :
  lookup_ctx c (transactionKey s) = None → stays_nested 0 ops →
  calls s (OpStart :: ops ++ rest) (Some c) w = Ret (ctx', None) w' →
  ∃ c1 w1 h,
    live s (Some c1) w1 (length (handles w)) h (length (txs w))
      {| conn := db s; done := false |} ∧
    savePoint h = depth_after 0 ops ∧
    calls s rest (Some c1) w1 = Ret (ctx', None) w'.
Proof.
  intros Hc Hfit Hrun. cbn [calls call] in Hrun. unfold_M.
  destruct (answer w) eqn:Ha.
  { rewrite StartTransaction_root in Hrun by done. cbv zeta in Hrun.
    rewrite Ha in Hrun. simplify_eq. }
  destruct (StartTransaction_root_live s c w Hc Ha) as (ctx1 & w1 & Hstart & Hl & _).
  rewrite Hstart in Hrun. cbn beta iota in Hrun.
  destruct (calls_nested s ops rest ctx1 _ _ _ w1 _ Hl eq_refl Hfit)
    as [(e & w'' & Hfail & _)|(w2 & Hl2 & _ & _ & Hnext)].
  { rewrite Hfail in Hrun. simplify_eq. }
  rewrite Hnext in Hrun.
  destruct ctx1 as [c1|]; [|by destruct Hl2].
  by exists c1, w2, (with_savePoint (depth_after 0 ops)
                 {| tx := Some (length (txs w)); savePoint := 0; savePointMtx := false |}).
Qed.

(** X3: [GetTransaction] returns nil on a context without binding and
    otherwise the [sql.Tx] of the [transaction] the context is bound to,
    at any depth and also while the mutex is held, and changes nothing.
    After a [StartTransaction] that opened a real transaction and any
    calls on savepoints it returns the [sql.Tx] that [Begin] made; on the
    context returned by the call that ended the real transaction it
    returns nil. *)
Theorem GetTransaction_follows_the_scope :
  (∀ c w, lookup_ctx c (transactionKey s) = None →
     GetTransaction s (Some c) w = Ret None w) ∧
  (∀ ctx w p h, bound s ctx = Some (TransactionPtr p) → handles w !! p = Some h →
     GetTransaction s ctx w = Ret (tx h) w) ∧
  (∀ c w ops ctx' w',
     lookup_ctx c (transactionKey s) = None → stays_nested 0 ops →
     calls s (OpStart :: ops) (Some c) w = Ret (ctx', None) w' →
     GetTransaction s ctx' w' = Ret (Some (length (txs w))) w') ∧
  (∀ c w ops op ctx' w',
     lookup_ctx c (transactionKey s) = None → stays_nested 0 ops →
     depth_after 0 ops = 0 → closer op →
     calls s (OpStart :: ops ++ [op]) (Some c) w = Ret (ctx', None) w' →
     GetTransaction s ctx' w' = Ret None w').
Proof.
  assert (∀ ctx w p h, bound s ctx = Some (TransactionPtr p) → handles w !! p = Some h →
            GetTransaction s ctx w = Ret (tx h) w) as Hbound.
  { intros [c|] w p h Hb Hp; [|done]. simpl in Hb.
    unfold GetTransaction, ctx_Value, as_transaction. unfold_M.
    by rewrite Hb, (deref_handles p h). }
  assert (∀ c w, lookup_ctx c (transactionKey s) = None →
            GetTransaction s (Some c) w = Ret None w) as Hnone.
  { intros c w Hc. unfold GetTransaction, ctx_Value. unfold_M. by rewrite Hc. }
  split_and!; [done|done| |].
  - intros c w ops ctx' w' Hc Hfit Hrun.
    rewrite <- (app_nil_r ops) in Hrun.
    destruct (opened_then_nested ops [] c w ctx' w' Hc Hfit Hrun)
      as (c1 & w1 & h & Hl & _ & Hrest).
    cbn [calls] in Hrest. unfold_M. simplify_eq.
    destruct Hl as (Hb & Hp & _ & _ & Ht & _).
    by rewrite (Hbound _ _ _ _ Hb Hp), Ht.
  - intros c w ops op ctx' w' Hc Hfit Hzero Hop Hrun.
    destruct (opened_then_nested ops [op] c w ctx' w' Hc Hfit Hrun)
      as (c1 & w1 & h & Hl & Hdepth & Hrest).
    rewrite Hzero in Hdepth.
    pose proof (call_closer_root s op c1 w1 _ _ _ _ Hop Hl Hdepth eq_refl) as Hroot.
    cbn [calls] in Hrest. unfold_M.
    destruct (answer w1).
    + destruct Hroot as [w2 Hroot]. rewrite Hroot in Hrest. simplify_eq.
    + destruct Hroot as (c' & w2 & Hroot & Hc' & _). rewrite Hroot in Hrest.
      simplify_eq. by apply Hnone.
Qed.

(** ** What one call costs *)

Lemma stderr_say line w :
  stderr (say line w) = stderr w ++ (if debugSQL w then [line] else []).
Proof. unfold say. destruct (debugSQL w); [done|]. by rewrite app_nil_r. Qed.

Lemma debugSQL_say line w : debugSQL (say line w) = debugSQL w.
Proof. unfold say. by destruct (debugSQL w) eqn:Hon. Qed.

(** Reading what a call left in the world. *)
Ltac ledger :=
  repeat first
    [ progress cbn [handles txs wire driver stderr debugSQL put_handle put_tx
                    set_handles set_txs sent set_wire set_driver sql_of]
    | rewrite handles_say | rewrite txs_say | rewrite wire_say
    | rewrite driver_say | rewrite stderr_say | rewrite debugSQL_say ];
  try done.

(** X4: on an open real transaction every call is one round trip: it
    sends one statement, takes one answer of the driver, and returns the
    error the driver answered, or no error when the driver accepted.  The
    statement is the savepoint statement of the depth, or COMMIT or
    ROLLBACK at depth 0; a first [StartTransaction] sends BEGIN.  With
    [debugSQL] on the call prints this statement, with [debugSQL] off it
    prints nothing; it never changes [debugSQL]. *)
Theorem one_call_one_round_trip :
  (∀ c w, lookup_ctx c (transactionKey s) = None →
     ∃ r w', StartTransaction s (Some c) w = Ret (r, answer w) w' ∧
             wire w' = wire w ++ [CBegin (db s)] ∧
             driver w' = drop 1 (driver w) ∧
             stderr w' = stderr w ++ (if debugSQL w then ["BEGIN"] else []) ∧
             debugSQL w' = debugSQL w) ∧
  (∀ op ctx w p h t x,
     live s ctx w p h t x → done x = false →
     (op = OpStart → savePoint h < uint64_max) →
     ∃ r w', call s op ctx w = Ret (r, answer w) w' ∧
             wire w' = wire w ++ [call_sent op (savePoint h) t] ∧
             driver w' = drop 1 (driver w) ∧
             stderr w' = stderr w ++
               (if debugSQL w then [sql_of (call_sent op (savePoint h) t)] else []) ∧
             debugSQL w' = debugSQL w).
Proof.
  split.
  - intros c w Hc. rewrite StartTransaction_root by done. cbv zeta.
    destruct (answer w); eexists _, _; (split; [reflexivity|]); by ledger.
  - intros op ctx w p h t x Hl Hd Hroom.
    pose proof Hl as (_ & _ & _ & Hmax & _). unfold uint64_max in *.
    destruct op; cbn [call call_sent nested_stmt].
    + rewrite (StartTransaction_nested s ctx w p h t x) by done. rewrite Hd.
      rewrite N.mod_small by (specialize (Hroom eq_refl); lia).
      destruct (answer w); eexists _, _; (split; [reflexivity|]); by ledger.
    + destruct (decide (savePoint h = 0)) as [Hzero|Hpos].
      * destruct ctx as [c|]; [|by destruct Hl].
        unfold Commit, tx_Commit. rewrite (finalize_root s _ _ _ c w p h t x) by done.
        rewrite Hd. cbv zeta.
        destruct (answer w); eexists _, _; (split; [reflexivity|]); by ledger.
      * unfold Commit. rewrite (finalize_nested s _ _ _ ctx w p h t x) by (done || lia).
        rewrite Hd. cbv zeta.
        destruct (answer w); eexists _, _; (split; [reflexivity|]); by ledger.
    + destruct (decide (savePoint h = 0)) as [Hzero|Hpos].
      * destruct ctx as [c|]; [|by destruct Hl].
        unfold Rollback, tx_Rollback. rewrite (finalize_root s _ _ _ c w p h t x) by done.
        rewrite Hd. cbv zeta.
        destruct (answer w); eexists _, _; (split; [reflexivity|]); by ledger.
      * unfold Rollback. rewrite (finalize_nested s _ _ _ ctx w p h t x) by (done || lia).
        rewrite Hd. cbv zeta.
        destruct (answer w); eexists _, _; (split; [reflexivity|]); by ledger.
Qed.

(** X5: what [debugSQL] prints is what is sent.  Over any calls that
    work on savepoints of an open real transaction, whether the run ends
    in an error or not: with [debugSQL] on the lines printed are the
    statements sent, in the same order; with [debugSQL] off nothing is
    printed. *)
Theorem debug_output_is_what_was_sent ops ctx p t x : ∀ w h r w',
  live s ctx w p h t x → done x = false → stays_nested (savePoint h) ops →
  calls s ops ctx w = Ret r w' →
  debugSQL w' = debugSQL w ∧
  ∃ sent_now,
    wire w' = wire w ++ sent_now ∧
    stderr w' = stderr w ++ (if debugSQL w then sql_of <$> sent_now else []).
Proof.
  induction ops as [|op ops IH]; intros w h r w' Hl Hd Hfit Hrun.
  - cbn [calls] in Hrun. unfold_M. simplify_eq. split; [done|].
    exists []. split; [by rewrite app_nil_r|].
    destruct (debugSQL w'); by rewrite app_nil_r.
  - destruct Hfit as [Hop Hfit].
    destruct one_call_one_round_trip as [_ Hone].
    destruct (Hone op ctx w p h t x Hl Hd) as (r1 & w1 & Hcall & Hwire & _ & Hout & Hdbg).
    { intros ->. done. }
    pose proof (call_nested s op ctx w p h t x Hl Hd (conj Hop I)) as Hnested.
    cbn [calls] in Hrun. unfold_M. rewrite Hcall in Hrun.
    destruct (answer w) as [e|].
    + simplify_eq. split; [done|]. exists [call_sent op (savePoint h) t].
      split; [done|]. rewrite Hout. by destruct (debugSQL w).
    + destruct Hnested as (w1' & Hcall' & Hl1 & _). rewrite Hcall in Hcall'. simplify_eq.
      destruct (IH w1' _ r w' Hl1 Hd Hfit Hrun) as (Hdbg' & more & Hwire' & Hout').
      split; [congruence|]. exists (call_sent op (savePoint h) t :: more).
      split; [by rewrite Hwire', Hwire, <- app_assoc|].
      rewrite Hout', Hout, Hdbg, <- app_assoc. by destruct (debugSQL w).
Qed.

(** ** The mutex *)

Lemma locks_put_handle p h h' w :
  handles w !! p = Some h → savePointMtx h' = savePointMtx h →
  locks (put_handle p h' w) = locks w.
Proof.
  intros Hp Hm. unfold locks. cbn [handles put_handle set_handles].
  rewrite list_fmap_insert, Hm. apply list_insert_id. by rewrite list_lookup_fmap, Hp.
Qed.

Ltac unfold_prim :=
  unfold tx_Commit, tx_Rollback, tx_finish, tx_Exec, db_Begin, round_trip,
    Lock, Unlock, incr_savePoint, decr_savePoint, store, new_transaction,
    as_transaction, ctx_Value, context_WithValue, debug, println, deref in *;
  unfold_M;
  repeat (case_match; simplify_eq);
  simplify_eq.

Lemma debug_locks line w a w' : debug line w = Ret a w' → locks w' = locks w.
Proof. intros Hrun. by unfold_prim. Qed.
Lemma db_Begin_locks d w a w' : db_Begin d w = Ret a w' → locks w' = locks w.
Proof. intros Hrun. by unfold_prim. Qed.
Lemma tx_Exec_locks t q w a w' : tx_Exec t q w = Ret a w' → locks w' = locks w.
Proof. intros Hrun. by unfold_prim. Qed.
Lemma tx_finish_locks mk t w a w' : tx_finish mk t w = Ret a w' → locks w' = locks w.
Proof. intros Hrun. by unfold_prim. Qed.
Lemma deref_locks {A} (heap : World → list A) p w a w' :
  deref heap p w = Ret a w' → locks w' = locks w.
Proof. intros Hrun. by unfold_prim. Qed.
Lemma ctx_Value_locks ctx k w a w' : ctx_Value ctx k w = Ret a w' → locks w' = locks w.
Proof. intros Hrun. by unfold_prim. Qed.
Lemma context_WithValue_locks ctx k v w a w' :
  context_WithValue ctx k v w = Ret a w' → locks w' = locks w.
Proof. intros Hrun. by unfold_prim. Qed.
Lemma as_transaction_locks v w a w' : as_transaction v w = Ret a w' → locks w' = locks w.
Proof. intros Hrun. by unfold_prim. Qed.
Lemma incr_savePoint_locks p w a w' : incr_savePoint p w = Ret a w' → locks w' = locks w.
Proof. intros Hrun. unfold_prim. by eapply locks_put_handle. Qed.
Lemma decr_savePoint_locks p w a w' : decr_savePoint p w = Ret a w' → locks w' = locks w.
Proof. intros Hrun. unfold_prim. by eapply locks_put_handle. Qed.
Lemma new_transaction_locks t w a w' :
  new_transaction t w = Ret a w' → locks w' = locks w ++ [false].
Proof. intros Hrun. unfold_prim. unfold locks. simpl. by rewrite fmap_app. Qed.

Lemma Lock_locks p w a w' :
  Lock p w = Ret a w' → locks w !! p = Some false ∧ locks w' = <[p := true]> (locks w).
Proof.
  unfold Lock, store, deref. unfold_M.
  destruct (handles w !! p) as [h|] eqn:Hp; [|done].
  destruct (savePointMtx h) eqn:Hm; [done|]. intros [= <- <-].
  unfold locks. cbn [handles set_handles].
  by rewrite list_lookup_fmap, list_fmap_insert, Hp, <- Hm.
Qed.

Lemma Unlock_locks p w a w' :
  Unlock p w = Ret a w' → locks w' = <[p := false]> (locks w).
Proof.
  unfold Unlock, store, deref. unfold_M.
  destruct (handles w !! p) as [h|] eqn:Hp; [|done].
  destruct (savePointMtx h) eqn:Hm; [|done]. intros [= <- <-].
  unfold locks. cbn [handles set_handles]. by rewrite list_fmap_insert.
Qed.

(** The steps of an operation that returned. *)
Ltac inv_steps :=
  repeat match goal with
  | H : mbind _ _ _ = Ret _ _ |- _ =>
      let H1 := fresh "Hstep" in
      apply bind_Ret in H as (? & ? & H1 & H)
  | H : mret _ _ = Ret _ _ |- _ => unfold mret, M_ret in H; simplify_eq
  | H : abort _ = Ret _ _ |- _ => discriminate H
  | H : (match ?x with _ => _ end) _ = Ret _ _ |- _ => destruct x
  | H : (if ?x then _ else _) _ = Ret _ _ |- _ => destruct x
  end.

(** From the steps of an operation to what they did to the mutexes. *)
Ltac to_locks :=
  repeat match goal with
  | H : Lock _ _ = Ret _ _ |- _ => apply Lock_locks in H as [? H]
  | H : Unlock _ _ = Ret _ _ |- _ => apply Unlock_locks in H
  | H : new_transaction _ _ = Ret _ _ |- _ => apply new_transaction_locks in H
  | H : _ = Ret _ _ |- _ =>
      first [ apply debug_locks in H | apply db_Begin_locks in H
            | apply tx_Exec_locks in H | apply tx_finish_locks in H
            | apply incr_savePoint_locks in H | apply decr_savePoint_locks in H
            | apply deref_locks in H | apply ctx_Value_locks in H
            | apply context_WithValue_locks in H | apply as_transaction_locks in H ]
  end.

(** Everything in terms of the mutexes before the call. *)
Ltac chain_locks :=
  repeat match goal with
  | Heq : locks ?a = _ |- _ => rewrite Heq in *; clear Heq
  end.

Lemma relocked (l : list bool) p :
  l !! p = Some false → <[p := false]> (<[p := true]> l) = l.
Proof. intros Hp. by rewrite list_insert_insert_eq, list_insert_id. Qed.

(** X19: a call that returns, with or without error, has released the
    mutex it took: all mutexes are as they were before the call, free ones
    free, and the mutex of a [transaction] that the call made is free. *)
Theorem returning_calls_release_the_mutex ctx given w r err w' :
  (StartTransaction s ctx w = Ret (r, err) w' ∨
   UseTransaction s ctx given w = Ret (r, err) w' →
   locks w' = locks w ∨ locks w' = locks w ++ [false]) ∧
  (Commit s ctx w = Ret (r, err) w' ∨ Rollback s ctx w = Ret (r, err) w' →
   locks w' = locks w).
Proof.
  split.
  - intros [Hrun|Hrun].
    + unfold StartTransaction, defer_Unlock in Hrun. inv_steps; to_locks; chain_locks.
      all: first [ left; by rewrite ?relocked by done | by right ].
    + unfold UseTransaction in Hrun. inv_steps; to_locks; chain_locks.
      all: first [ by left | by right ].
  - intros [Hrun|Hrun];
      unfold Commit, Rollback, tx_Commit, tx_Rollback, finalize, defer_Unlock in Hrun;
      inv_steps; to_locks; chain_locks.
    all: by rewrite ?relocked by done.
Qed.

(** ** Several coordinators, several transactions *)

(** X6: [transactionKey] tells [MySQL] objects apart: two of them have
    the same key exactly when they are at the same address. *)
Theorem transactionKey_tells_coordinators_apart s' :
  transactionKey s = transactionKey s' ↔ self s = self s'.
Proof.
  split; [|unfold transactionKey; by intros ->].
  unfold transactionKey, FormatInt. intros [= Heq].
  change (pretty (self s) = pretty (self s')) in Heq. by apply (inj pretty) in Heq.
Qed.

Lemma returned_context ctx w r err w' :
  StartTransaction s ctx w = Ret (r, err) w' ∨
  Commit s ctx w = Ret (r, err) w' ∨ Rollback s ctx w = Ret (r, err) w' ∨
  (∃ given, UseTransaction s ctx given w = Ret (r, err) w') →
  r = None ∨ r = ctx ∨
  ∃ c parent v, ctx = Some c ∧
    r = Some (WithValue parent (transactionKey s) v) ∧
    (parent = c ∨ ∃ caption, parent = timelog_Finish (timelog_Start c caption)).
Proof.
  intros [Hrun|[Hrun|[Hrun|[given Hrun]]]];
    unfold StartTransaction, UseTransaction, Commit, Rollback, finalize,
      defer_Unlock, context_WithValue, timelog_finish, timelog_start, ctx_Value in Hrun;
    destruct ctx as [c|]; cbn [fmap option_fmap option_map] in Hrun;
    inv_steps; eauto 12.
Qed.

(** X7: a call of one coordinator leaves the bindings of the others in
    the context it returns, when [timelog] leaves them in the contexts it
    makes; and the other coordinator's key is another key. *)
Theorem bindings_of_other_coordinators_survive s' ctx w c' err w' :
  self s' ≠ self s →
  (∀ c caption, lookup_ctx (timelog_Start c caption) (transactionKey s')
                = lookup_ctx c (transactionKey s')) →
  (∀ c, lookup_ctx (timelog_Finish c) (transactionKey s')
        = lookup_ctx c (transactionKey s')) →
  StartTransaction s ctx w = Ret (Some c', err) w' ∨
  Commit s ctx w = Ret (Some c', err) w' ∨ Rollback s ctx w = Ret (Some c', err) w' ∨
  (∃ given, UseTransaction s ctx given w = Ret (Some c', err) w') →
  bound s' (Some c') = bound s' ctx.
Proof.
  intros Hother Hstart Hfinish Hrun.
  destruct (returned_context ctx w (Some c') err w' Hrun)
    as [?|[<-|(c & parent & v & -> & [= ->] & Hparent)]]; [done|done|].
  cbn [bound lookup_ctx]. rewrite decide_False.
  - destruct Hparent as [->|[caption ->]]; [done|]. by rewrite Hfinish, Hstart.
  - intros Hkey. apply transactionKey_tells_coordinators_apart in Hkey. congruence.
Qed.

Lemma others_kept_trans P w1 w2 w3 :
  others_kept P w1 w2 → others_kept P w2 w3 → others_kept P w1 w3.
Proof. intros H12 H23 q hq Hq Hne. eauto. Qed.

Lemma others_kept_same P w w' : handles w' = handles w → others_kept P w w'.
Proof. intros Heq q hq Hq _. by rewrite Heq. Qed.

Lemma others_kept_put p h w : others_kept (Some p) w (put_handle p h w).
Proof.
  intros q hq Hq Hne. cbn [handles put_handle set_handles].
  rewrite list_lookup_insert_ne; [done|congruence].
Qed.

Lemma others_kept_alloc P h w : others_kept P w (set_handles (λ l, l ++ [h]) w).
Proof.
  intros q hq Hq _. cbn [handles set_handles].
  by rewrite lookup_app_l by eauto using lookup_lt_Some.
Qed.

Lemma debug_others P line w a w' : debug line w = Ret a w' → others_kept P w w'.
Proof. intros Hrun. unfold_prim; by apply others_kept_same. Qed.
Lemma db_Begin_others P d w a w' : db_Begin d w = Ret a w' → others_kept P w w'.
Proof. intros Hrun. unfold_prim; by apply others_kept_same. Qed.
Lemma tx_Exec_others P t q w a w' : tx_Exec t q w = Ret a w' → others_kept P w w'.
Proof. intros Hrun. unfold_prim; by apply others_kept_same. Qed.
Lemma tx_finish_others P mk t w a w' : tx_finish mk t w = Ret a w' → others_kept P w w'.
Proof. intros Hrun. unfold_prim; by apply others_kept_same. Qed.
Lemma deref_others {A} P (heap : World → list A) p w a w' :
  deref heap p w = Ret a w' → others_kept P w w'.
Proof. intros Hrun. unfold_prim; by apply others_kept_same. Qed.
Lemma context_WithValue_others P ctx k v w a w' :
  context_WithValue ctx k v w = Ret a w' → others_kept P w w'.
Proof. intros Hrun. unfold_prim; by apply others_kept_same. Qed.
Lemma new_transaction_others P t w a w' :
  new_transaction t w = Ret a w' → others_kept P w w'.
Proof. intros Hrun. unfold_prim; apply others_kept_alloc. Qed.
Lemma Lock_others p w a w' : Lock p w = Ret a w' → others_kept (Some p) w w'.
Proof. intros Hrun. unfold_prim; apply others_kept_put. Qed.
Lemma Unlock_others p w a w' : Unlock p w = Ret a w' → others_kept (Some p) w w'.
Proof. intros Hrun. unfold_prim; apply others_kept_put. Qed.
Lemma incr_savePoint_others p w a w' :
  incr_savePoint p w = Ret a w' → others_kept (Some p) w w'.
Proof. intros Hrun. unfold_prim; apply others_kept_put. Qed.
Lemma decr_savePoint_others p w a w' :
  decr_savePoint p w = Ret a w' → others_kept (Some p) w w'.
Proof. intros Hrun. unfold_prim; apply others_kept_put. Qed.

Lemma ctx_Value_bound ctx w a w' :
  ctx_Value ctx (transactionKey s) w = Ret a w' → a = bound s ctx ∧ w' = w.
Proof. intros Hrun. destruct ctx; unfold_prim; done. Qed.

Lemma as_transaction_ptr d w p w' :
  as_transaction d w = Ret p w' → d = TransactionPtr p ∧ w' = w.
Proof. intros Hrun. destruct d; unfold_prim; done. Qed.

(** From the steps of an operation to what they left of the heap. *)
Ltac to_others P :=
  repeat match goal with
  | H : _ = Ret _ _ |- _ =>
      first [ apply Lock_others in H | apply Unlock_others in H
            | apply incr_savePoint_others in H | apply decr_savePoint_others in H
            | apply (debug_others P) in H | apply (db_Begin_others P) in H
            | apply (tx_Exec_others P) in H | apply (tx_finish_others P) in H
            | apply (deref_others P) in H | apply (context_WithValue_others P) in H
            | apply (new_transaction_others P) in H ]
  end;
  repeat (eapply others_kept_trans; [eassumption|]);
  try (by apply others_kept_same).

(** X8: a call leaves every [transaction] on the heap as it was, depth,
    mutex and [sql.Tx], except the one its context is bound to. *)
Theorem calls_touch_only_their_transaction ctx given w r err w' :
  StartTransaction s ctx w = Ret (r, err) w' ∨
  UseTransaction s ctx given w = Ret (r, err) w' ∨
  Commit s ctx w = Ret (r, err) w' ∨ Rollback s ctx w = Ret (r, err) w' →
  ∀ q hq, handles w !! q = Some hq → bound s ctx ≠ Some (TransactionPtr q) →
    handles w' !! q = Some hq.
Proof.
  intros Hrun q hq Hq Hne.
  assert (∃ P, others_kept P w w' ∧ P ≠ Some q) as (P & Hkept & HP); [|by apply (Hkept q hq)].
  destruct Hrun as [Hrun|[Hrun|[Hrun|Hrun]]];
    unfold StartTransaction, UseTransaction, Commit, Rollback, finalize, defer_Unlock,
      tx_Commit, tx_Rollback in Hrun;
    inv_steps;
    repeat match goal with
    | Hv : ctx_Value _ _ _ = Ret _ _ |- _ => apply ctx_Value_bound in Hv as [Hv ->]
    | Ha : as_transaction _ _ = Ret _ _ |- _ => apply as_transaction_ptr in Ha as [-> ->]
    end.
  all: first
    [ match goal with
      | Hb : Some (TransactionPtr ?p) = bound s _ |- _ =>
          exists (Some p); split; [to_others (Some p)|congruence]
      end
    | exists None; split; [to_others (@None nat)|done] ].
Qed.

(** ** Scopes of [DoInTransaction] *)


(** X10: [DoInTransaction] on a context that is bound already, with a
    driver that accepts its statements: it opens the savepoint of the
    next depth, and when [f] returns with this depth it sends RELEASE
    SAVEPOINT for it if [f] succeeded and ROLLBACK TO SAVEPOINT if [f]
    failed, returns what [f] returned, and leaves the depth where it found
    it and the real transaction open. *)
Theorem DoInTransaction_nested_scope ctx f w p h t x ctx1 w1 ferr w2 h2 :
  live s ctx w p h t x → done x = false → savePoint h < uint64_max →
  StartTransaction s ctx w = Ret (ctx1, None) w1 →
  f ctx1 w1 = Ret ferr w2 →
  live s ctx1 w2 p h2 t x → savePoint h2 = savePoint h + 1 → answer w2 = None →
  ctx1 = ctx ∧
  wire w1 = wire w ++ [CExec t (savepoint_stmt "SAVEPOINT SP" (savePoint h + 1))] ∧
  ∃ w3, DoInTransaction s ctx f w = Ret ferr w3 ∧
        wire w3 = wire w2 ++
          [CExec t (savepoint_stmt
                      match ferr with
                      | Some _ => "ROLLBACK TO SAVEPOINT SP"
                      | None => "RELEASE SAVEPOINT SP"
                      end
                      (savePoint h + 1))] ∧
        depth s ctx w3 = Some (savePoint h) ∧
        txs w3 !! t = Some x.
Proof.
  intros Hl Hd Hroom Hstart Hf Hl2 Hdepth Ha2.
  pose proof Hstart as Hstart'.
  rewrite (StartTransaction_nested s ctx w p h t x) in Hstart' by done.
  rewrite Hd in Hstart'. unfold uint64_max in Hroom.
  rewrite N.mod_small in Hstart' by lia.
  assert (ctx1 = ctx ∧
          w1 = put_handle p (with_savePoint (savePoint h + 1) h)
                 (sent (CExec t (savepoint_stmt "SAVEPOINT SP" (savePoint h + 1)))
                    (say (savepoint_stmt "SAVEPOINT SP" (savePoint h + 1)) w)))
    as [-> ->] by (destruct (answer w); by simplify_eq).
  clear Hstart'.
  split; [done|]. split; [by heap|].
  pose proof Hl2 as (Hb & Hp & Hm & Hmax & Ht & Hx).
  assert (p < length (handles w2))%nat by eauto using lookup_lt_Some.
  unfold DoInTransaction. unfold_M. rewrite Hstart, Hf.
  unfold depth. rewrite Hb.
  destruct ferr as [e|].
  - unfold Rollback. rewrite (finalize_nested s _ _ _ ctx w2 p h2 t x) by (done || lia).
    rewrite Hd. cbv zeta. rewrite Ha2, Hdepth. eexists. split; [done|]. heap.
    split; [done|]. split; [|done]. cbn [fmap option_fmap option_map with_savePoint savePoint].
    f_equal. lia.
  - unfold Commit. rewrite (finalize_nested s _ _ _ ctx w2 p h2 t x) by (done || lia).
    rewrite Hd. cbv zeta. rewrite Ha2, Hdepth. eexists. split; [done|]. heap.
    split; [done|]. split; [|done]. cbn [fmap option_fmap option_map with_savePoint savePoint].
    f_equal. lia.
Qed.

Lemma with_savePoint_twice n m h : with_savePoint n (with_savePoint m h) = with_savePoint n h.
Proof. done. Qed.

(** Scopes inside a bound context. *)
Lemma scopes_on_savepoints k g ferr ctx p t x :
  (∀ ctx w, g ctx w = Ret ferr w) → ∀ w h,
  live s ctx w p h t x → done x = false →
  savePoint h + N.of_nat k ≤ uint64_max → all_ok (driver w) →
  ∃ w', scopes s k g ctx w = Ret ferr w' ∧
        live s ctx w' p h t x ∧ all_ok (driver w') ∧
        wire w' = wire w ++ opening t (count_up (savePoint h) k)
                         ++ closing ferr t (count_up (savePoint h) k).
Proof.
  intros Hg. induction k as [|k IH]; intros w h Hl Hd Hroom Hok.
  - exists w. cbn [scopes]. rewrite Hg. by rewrite app_nil_r.
  - pose proof Hl as (_ & _ & _ & Hmax & _). unfold uint64_max in *.
    pose proof (call_nested s OpStart ctx w p h t x Hl Hd) as Hstart.
    rewrite (answer_all_ok w Hok) in Hstart.
    destruct Hstart as (w1 & Hstart & Hl1 & Hwire1 & Hdrv1).
    { split; [|done]. unfold uint64_max. lia. }
    cbn [call next_depth nested_stmt] in *.
    destruct (IH w1 _ Hl1 Hd) as (w2 & Hrun & Hl2 & Hok2 & Hwire2).
    { cbn [with_savePoint savePoint]. lia. }
    { rewrite Hdrv1. by apply all_ok_drop. }
    cbn [with_savePoint savePoint] in Hwire2.
    assert (closer (closing_op ferr)) as Hcl by (destruct ferr; [by right|by left]).
    pose proof (call_nested s (closing_op ferr) ctx w2 p _ t x Hl2 Hd) as Hclose.
    rewrite (answer_all_ok w2 Hok2) in Hclose.
    destruct Hclose as (w3 & Hclose & Hl3 & Hwire3 & Hdrv3).
    { destruct ferr; cbn [closing_op with_savePoint savePoint stays_nested];
        split; (done || lia). }
    assert (next_depth (closing_op ferr) (savePoint h + 1) = savePoint h) as Hback
      by (destruct ferr; cbn [closing_op next_depth]; lia).
    cbn [with_savePoint savePoint] in Hl3, Hwire3.
    rewrite with_savePoint_twice, Hback, with_savePoint_same in Hl3.
    exists w3. split_and!.
    + cbn [scopes]. unfold DoInTransaction. unfold_M. rewrite Hstart, Hrun.
      destruct ferr; cbn [closing_op call] in Hclose; by rewrite Hclose.
    + done.
    + rewrite Hdrv3. by apply all_ok_drop.
    + rewrite Hwire3, Hwire2, Hwire1. unfold opening, closing.
      cbn [count_up fmap list_fmap]. rewrite reverse_cons, fmap_app.
      by rewrite <- !app_assoc.
Qed.

(** X11: transaction scopes one inside the other around a function that
    does not use the database, with a driver that accepts every call:
    BEGIN, then SAVEPOINT SP1, SP2, ... for the inner scopes, then, last
    opened first, RELEASE SAVEPOINT for each if the function succeeded and
    ROLLBACK TO SAVEPOINT if it failed, then one COMMIT or ROLLBACK; what
    the function returned is returned, and the [sql.Tx] is over. *)
Theorem nested_scopes_close_in_reverse_order k g ferr c w :
  (∀ ctx w, g ctx w = Ret ferr w) →
  lookup_ctx c (transactionKey s) = None →
  N.of_nat k ≤ uint64_max → all_ok (driver w) →
  let t := length (txs w) in
  ∃ w', scopes s (S k) g (Some c) w = Ret ferr w' ∧
        wire w' = wire w ++ CBegin (db s) :: opening t (count_up 0 k)
                    ++ closing ferr t (count_up 0 k)
                    ++ [closing_call (closing_op ferr) t] ∧
        txs w' !! t = Some {| conn := db s; done := true |}.
Proof.
  intros Hg Hc Hk Hok t.
  destruct (StartTransaction_root_live s c w Hc (answer_all_ok w Hok))
    as (ctx1 & w1 & Hstart & Hl & Hwire1 & Hdrv1).
  destruct (scopes_on_savepoints k g ferr ctx1 _ _ _ Hg w1 _ Hl eq_refl)
    as (w2 & Hrun & Hl2 & Hok2 & Hwire2).
  { cbn [savePoint]. lia. }
  { rewrite Hdrv1. by apply all_ok_drop. }
  cbn [savePoint] in Hwire2.
  destruct ctx1 as [c1|]; [|by destruct Hl2].
  assert (closer (closing_op ferr)) as Hcl by (destruct ferr; [by right|by left]).
  pose proof (call_closer_root s (closing_op ferr) c1 w2 _ _ _ _ Hcl Hl2 eq_refl eq_refl)
    as Hroot.
  rewrite (answer_all_ok w2 Hok2) in Hroot.
  destruct Hroot as (c' & w3 & Hclose & _ & _ & Htxs & Hwire3 & _).
  exists w3. split_and!.
  - cbn [scopes]. unfold DoInTransaction. unfold_M. rewrite Hstart, Hrun.
    destruct ferr; cbn [closing_op call] in Hclose; by rewrite Hclose.
  - rewrite Hwire3, Hwire2, Hwire1. rewrite <- !app_assoc. cbn [app].
    by destruct ferr.
  - rewrite Htxs. destruct Hl2 as (_ & _ & _ & _ & _ & Hx).
    by rewrite list_lookup_insert_eq by eauto using lookup_lt_Some.
Qed.

(** ** An adopted transaction *)

Lemma UseTransaction_adopts c t w :
  lookup_ctx c (transactionKey s) = None →
  UseTransaction s (Some c) (Some t) w
  = Ret (Some (WithValue c (transactionKey s) (Some (TransactionPtr (length (handles w))))),
         None)
        (set_handles (λ l, l ++ [{| tx := Some t; savePoint := 0; savePointMtx := false |}]) w) ∧
  handles (set_handles
             (λ l, l ++ [{| tx := Some t; savePoint := 0; savePointMtx := false |}]) w)
    !! length (handles w)
  = Some {| tx := Some t; savePoint := 0; savePointMtx := false |}.
Proof.
  intros Hc. split; [|by apply list_lookup_middle].
  unfold UseTransaction, ctx_Value, new_transaction, context_WithValue. unfold_M.
  by rewrite Hc.
Qed.

(** X12: [UseTransaction] sends nothing, and the context it returns is
    coordinated like one that [StartTransaction] returned: with a driver
    that accepts every call, calls that work on savepoints and close all
    they open send their savepoint statements on the adopted [sql.Tx], no
    BEGIN, and the [Commit] or [Rollback] at depth 0 commits or rolls back
    the adopted [sql.Tx] and returns a context without binding. *)
Theorem adopted_transaction_is_closed_by_the_coordinator c t x w ops op :
  lookup_ctx c (transactionKey s) = None →
  txs w !! t = Some x → done x = false →
  stays_nested 0 ops → depth_after 0 ops = 0 → closer op →
  all_ok (driver w) →
  ∃ c1 w1 c' w',
    UseTransaction s (Some c) (Some t) w = Ret (Some c1, None) w1 ∧
    wire w1 = wire w ∧
    calls s (ops ++ [op]) (Some c1) w1 = Ret (Some c', None) w' ∧
    lookup_ctx c' (transactionKey s) = None ∧
    wire w' = wire w ++ nested_stmts t 0 ops ++ [closing_call op t] ∧
    txs w' !! t = Some (finished x).
Proof.
  intros Hc Hx Hd Hfit Hzero Hop Hok.
  destruct (UseTransaction_adopts c t w Hc) as (Hrun & Hp).
  set (c1 := WithValue c (transactionKey s) (Some (TransactionPtr (length (handles w))))) in *.
  set (h0 := {| tx := Some t; savePoint := 0; savePointMtx := false |}) in *.
  set (w1 := set_handles (λ l, l ++ [h0]) w) in *.
  assert (live s (Some c1) w1 (length (handles w)) h0 t x) as Hl.
  { unfold live, c1. cbn [bound lookup_ctx]. rewrite decide_True by done.
    unfold uint64_max. by split_and!. }
  destruct (calls_nested s ops [op] (Some c1) _ _ _ w1 _ Hl Hd Hfit)
    as [(e & w' & _ & Hno)|(w2 & Hl2 & Hwire2 & Hok2 & Hnext)]; [done|].
  cbn [savePoint h0] in Hl2, Hwire2. rewrite Hzero in Hl2.
  pose proof (call_closer_root s op c1 w2 _ _ _ _ Hop Hl2 eq_refl Hd) as Hroot.
  rewrite (answer_all_ok w2) in Hroot by auto.
  destruct Hroot as (c' & w3 & Hclose & Hc' & _ & Htxs & Hwire3 & _).
  exists c1, w1, c', w3. split_and!; [done|done| |done| |].
  - rewrite Hnext. cbn [calls]. unfold_M. by rewrite Hclose.
  - rewrite Hwire3, Hwire2. rewrite <- !app_assoc. by destruct Hop as [-> | ->].
  - rewrite Htxs. destruct Hl2 as (_ & _ & _ & _ & _ & Hx2).
    by rewrite list_lookup_insert_eq by eauto using lookup_lt_Some.
Qed.

(** ** At the edges *)

(** X16: once the [sql.Tx] is over every call on a context bound to it
    is refused with [ErrTxDone] before anything is sent and without using
    an answer of the driver.  [Commit] and [Rollback] leave the depth as it
    is; [StartTransaction] has advanced it by then. *)
Theorem calls_on_a_finished_transaction op ctx w p h t x :
  live s ctx w p h t x → done x = true →
  ∃ w', call s op ctx w = Ret (None, Some ErrTxDone) w' ∧
        wire w' = wire w ∧ driver w' = driver w ∧ txs w' = txs w ∧
        depth s ctx w'
        = Some (match op with
                | OpStart => (savePoint h + 1) mod 2 ^ 64
                | OpCommit | OpRollback => savePoint h
                end).
Proof.
  intros Hl Hd. pose proof Hl as (Hb & Hp & _).
  assert (p < length (handles w))%nat by eauto using lookup_lt_Some.
  unfold depth. rewrite Hb.
  destruct op; cbn [call].
  - rewrite (StartTransaction_nested s ctx w p h t x) by done. rewrite Hd.
    eexists. split; [done|]. by heap.
  - destruct (decide (savePoint h = 0)) as [Hzero|Hpos].
    + destruct ctx as [c|]; [|by destruct Hl].
      unfold Commit, tx_Commit. rewrite (finalize_root s _ _ _ c w p h t x) by done.
      rewrite Hd. eexists. split; [done|]. heap. by rewrite Hp.
    + unfold Commit. rewrite (finalize_nested s _ _ _ ctx w p h t x) by (done || lia).
      rewrite Hd. eexists. split; [done|]. heap. by rewrite Hp.
  - destruct (decide (savePoint h = 0)) as [Hzero|Hpos].
    + destruct ctx as [c|]; [|by destruct Hl].
      unfold Rollback, tx_Rollback. rewrite (finalize_root s _ _ _ c w p h t x) by done.
      rewrite Hd. eexists. split; [done|]. heap. by rewrite Hp.
    + unfold Rollback. rewrite (finalize_nested s _ _ _ ctx w p h t x) by (done || lia).
      rewrite Hd. eexists. split; [done|]. heap. by rewrite Hp.
Qed.

(** X17: the counter is a [uint64] and wraps.  A nested
    [StartTransaction] at depth 2^64 - 1 sends SAVEPOINT SP0 and leaves
    the depth at 0, so that the next [Commit] ends the real transaction. *)
Theorem depth_wraps_at_the_top ctx w p h t x :
  live s ctx w p h t x → done x = false → savePoint h = uint64_max →
  ∃ r w', StartTransaction s ctx w = Ret (r, answer w) w' ∧
          wire w' = wire w ++ [CExec t "SAVEPOINT SP0"] ∧
          depth s ctx w' = Some 0 ∧
          (answer w = None → answer w' = None →
           ∃ r' w'', Commit s ctx w' = Ret (r', None) w'' ∧
                     wire w'' = wire w' ++ [CCommit t]).
Proof.
  intros Hl Hd Htop. pose proof Hl as (Hb & Hp & Hm & Hmax & Ht & Hx).
  assert (p < length (handles w))%nat by eauto using lookup_lt_Some.
  rewrite (StartTransaction_nested s ctx w p h t x) by done. rewrite Hd, Htop.
  change ((uint64_max + 1) mod 2 ^ 64) with 0.
  set (w' := put_handle _ _ _).
  exists (match answer w with Some _ => None | None => ctx end), w'.
  split; [by destruct (answer w)|].
  unfold depth. rewrite Hb. unfold w' at 1 2. heap. split; [done|]. split; [done|].
  intros Ha Ha'. destruct ctx as [c|]; [|done].
  assert (live s (Some c) w' p (with_savePoint 0 h) t x) as Hl'.
  { unfold live, w'. heap. unfold uint64_max. by split_and!. }
  unfold Commit, tx_Commit.
  rewrite (finalize_root s _ _ _ c w' p (with_savePoint 0 h) t x) by done.
  rewrite Hd. cbv zeta. rewrite Ha'. eexists _, _. split; [done|]. by heap.
Qed.

(** ** The derived field of the test model *)

(** X18: the [Get] of "fullname" returns the name, a space and the last
    name, and no error, when both are strings of the row; it panics when
    one of them is missing or is no string; and it reads no other field:
    rows that agree on the fields of [DependsOn] give the same. *)
Theorem fullname_reads_what_it_depends_on :
  (∀ row name lastname,
     row !! "name" = Some (FString name) → row !! "lastname" = Some (FString lastname) →
     fullname_Get row = Some (FString ((name +:+ " ") +:+ lastname), None)) ∧
  (∀ row, fullname_Get row = None ↔
     ∃ key, key ∈ fullname_DependsOn ∧ ∀ v, row !! key ≠ Some (FString v)) ∧
  (∀ row1 row2,
     (∀ key, key ∈ fullname_DependsOn → row1 !! key = row2 !! key) →
     fullname_Get row1 = fullname_Get row2).
Proof.
  split_and!.
  - intros row name lastname Hn Hl. unfold fullname_Get, string_of. by rewrite Hn, Hl.
  - intros row. unfold fullname_Get, string_of, fullname_DependsOn. split.
    + intros Hpanic.
      destruct (row !! "name") as [[n|?]|] eqn:Hn;
        [|exists "name"; split; [set_solver|by intros ?; rewrite Hn]..].
      destruct (row !! "lastname") as [[l|?]|] eqn:Hl;
        [done|exists "lastname"; split; [set_solver|by intros ?; rewrite Hl]..].
    + intros (key & Hkey & Hno).
      apply list_elem_of_In in Hkey. destruct Hkey as [<-|[<-|[]]].
      * destruct (row !! "name") as [[n|?]|]; [by destruct (Hno n)|done..].
      * destruct (row !! "name") as [[n|?]|]; [|done..].
        destruct (row !! "lastname") as [[l|?]|]; [by destruct (Hno l)|done..].
  - intros row1 row2 Hsame. unfold fullname_Get, string_of.
    rewrite (Hsame "name"), (Hsame "lastname"); [done|..];
      unfold fullname_DependsOn; set_solver.
Qed.

End More.

(** * Further properties of the goroutines *)

Lemma count_partition l :
  (count pending l + count at_exec l + count past_exec l = length l)%nat.
Proof.
  induction l as [|p l IH]; [done|]. rewrite !count_cons. cbn [length].
  destruct p; cbn [pending at_exec past_exec]; lia.
Qed.

Lemma count_at_exec_critical l : (count at_exec l ≤ count critical l)%nat.
Proof.
  induction l as [|p l IH]; [done|]. rewrite !count_cons.
  destruct p; cbn [at_exec critical]; lia.
Qed.

Lemma count_up_snoc d (m : nat) :
  count_up d (S m) = count_up d m ++ [d + N.of_nat m + 1].
Proof.
  revert d. induction m as [|m IH]; intros d.
  - cbn [count_up app]. replace (d + N.of_nat 0 + 1) with (d + 1) by lia. done.
  - change (count_up d (S (S m))) with ((d + 1) :: count_up (d + 1) (S m)).
    rewrite IH. cbn [count_up app].
    replace (d + 1 + N.of_nat m + 1) with (d + N.of_nat (S m) + 1) by lia. done.
Qed.

Lemma count_all_returned f l :
  Forall (λ p, p = Returned) l → f Returned = false → count f l = 0%nat.
Proof.
  intros Hall Hf. induction Hall as [|p l -> _ IH]; [done|].
  by rewrite count_cons, Hf, IH.
Qed.

Lemma Tally_start n d over : Tally d n over (goroutines n d over).
Proof.
  split; cbn [goroutines sh_pcs sh_done sh_savePoint sh_sent].
  - apply length_replicate.
  - done.
  - by rewrite count_replicate.
  - intros _. by rewrite count_replicate.
Qed.

(** One step keeps the account. *)
Lemma step_Tally d n over i st nums :
  Inv st nums → Tally d n over st → Tally d n over (step i st).
Proof.
  intros HI [Hlen Hdone Hdepth Hsent].
  pose proof HI as [_ _ _ Hmutex Hseen _ Hroom].
  unfold step. destruct (sh_pcs st !! i) as [p|] eqn:Hi; [|done].
  pose proof (count_partition (sh_pcs st)) as Hparts.
  pose proof (count_at_exec_critical (sh_pcs st)) as Hfew.
  assert (∀ q, let l' := <[i := q]> (sh_pcs st) in
            length l' = n ∧
            (count pending l' + (if pending p then 1 else 0)
             = count pending (sh_pcs st) + (if pending q then 1 else 0))%nat ∧
            (count past_exec l' + (if past_exec p then 1 else 0)
             = count past_exec (sh_pcs st) + (if past_exec q then 1 else 0))%nat)
    as Hmoved.
  { intros q l'. unfold l'. rewrite length_insert.
    pose proof (count_insert pending _ i p q Hi).
    pose proof (count_insert past_exec _ i p q Hi). done. }
  destruct p as [| |seen| | |].
  - destruct (sh_held st); [done|].
    destruct (Hmoved AtLoad) as (Hl' & Hp' & He'). cbn [pending past_exec] in *.
    split; cbn [move sh_sent sh_pcs sh_savePoint sh_held sh_done]; try done.
    + replace (count pending (<[i:=AtLoad]> (sh_pcs st)))
        with (count pending (sh_pcs st)) by lia. done.
    + intros Hopen. rewrite app_nil_r, Hsent by done. do 2 f_equal. lia.
  - destruct (Hmoved (AtStore (sh_savePoint st))) as (Hl' & Hp' & He').
    cbn [pending past_exec] in *.
    split; cbn [move sh_sent sh_pcs sh_savePoint sh_held sh_done]; try done.
    + replace (count pending (<[i:=AtStore (sh_savePoint st)]> (sh_pcs st)))
        with (count pending (sh_pcs st)) by lia. done.
    + intros Hopen. rewrite app_nil_r, Hsent by done. do 2 f_equal. lia.
  - destruct (Hmoved AtExec) as (Hl' & Hp' & He'). cbn [pending past_exec] in *.
    pose proof (Hseen i seen Hi) as ->.
    pose proof (count_one pending _ i _ Hi eq_refl) as Hone.
    unfold uint64_max in Hroom.
    split; cbn [move sh_sent sh_pcs sh_savePoint sh_held sh_done]; try done.
    + rewrite N.mod_small by lia. lia.
    + intros Hopen. rewrite app_nil_r, Hsent by done. do 2 f_equal. lia.
  - destruct (Hmoved AtUnlock) as (Hl' & Hp' & He'). cbn [pending past_exec] in *.
    pose proof (count_one at_exec _ i _ Hi eq_refl) as Hone.
    assert (count at_exec (sh_pcs st) = 1)%nat as Hexec.
    { rewrite Hmutex in Hfew. destruct (sh_held st); lia. }
    split; cbn [move sh_sent sh_pcs sh_savePoint sh_held sh_done]; try done.
    + replace (count pending (<[i:=AtUnlock]> (sh_pcs st)))
        with (count pending (sh_pcs st)) by lia. done.
    + intros Hopen. rewrite Hdone, Hopen, Hsent by done.
      replace (count past_exec (<[i:=AtUnlock]> (sh_pcs st)))
        with (S (count past_exec (sh_pcs st))) by lia.
      rewrite count_up_snoc, fmap_app.
      replace (d + N.of_nat (count past_exec (sh_pcs st)) + 1)
        with (sh_savePoint st) by lia.
      done.
  - destruct (sh_held st); [|done].
    destruct (Hmoved Returned) as (Hl' & Hp' & He'). cbn [pending past_exec] in *.
    split; cbn [move sh_sent sh_pcs sh_savePoint sh_held sh_done]; try done.
    + replace (count pending (<[i:=Returned]> (sh_pcs st)))
        with (count pending (sh_pcs st)) by lia. done.
    + intros Hopen. rewrite app_nil_r, Hsent by done. do 2 f_equal. lia.
  - done.
Qed.

Lemma run_schedule_Tally d n over schedule : ∀ st nums,
  Inv st nums → Tally d n over st →
  ∃ nums', Inv (run_schedule schedule st) nums' ∧ Tally d n over (run_schedule schedule st).
Proof.
  induction schedule as [|i schedule IH]; intros st nums HI HT; [eauto|].
  destruct (step_Inv i st nums HI) as [more HI1].
  apply (IH _ _ HI1). by eapply step_Tally.
Qed.

Lemma reachable n d over schedule :
  d + N.of_nat n ≤ uint64_max →
  ∃ nums, Inv (run_schedule schedule (goroutines n d over)) nums ∧
          Tally d n over (run_schedule schedule (goroutines n d over)).
Proof.
  intros Hroom.
  apply (run_schedule_Tally d n over schedule _ []); [by apply Inv_start|apply Tally_start].
Qed.

(** X13: under every schedule at most one goroutine at a time is between
    [Lock] and [Unlock], and the mutex is held exactly while one is. *)
Theorem one_goroutine_at_a_time (n : nat) d over schedule :
  d + N.of_nat n ≤ uint64_max →
  let st := run_schedule schedule (goroutines n d over) in
  (∀ i j p q, sh_pcs st !! i = Some p → sh_pcs st !! j = Some q →
     critical p = true → critical q = true → i = j) ∧
  (sh_held st = true ↔ ∃ i p, sh_pcs st !! i = Some p ∧ critical p = true).
Proof.
  intros Hroom st. destruct (reachable n d over schedule Hroom) as (nums & HI & _).
  fold st in HI. split.
  - intros i j p q. by apply (Inv_alone st nums).
  - pose proof (inv_mutex _ _ HI) as Hmutex. split.
    + intros Hheld. rewrite Hheld in Hmutex.
      unfold count in Hmutex.
      destruct (filter (λ p, critical p = true) (sh_pcs st)) as [|p l] eqn:Hfilter; [done|].
      assert (p ∈ filter (λ p, critical p = true) (sh_pcs st)) as Hin
        by (rewrite Hfilter; by left).
      apply list_elem_of_filter in Hin as [Hcrit Hin].
      apply list_elem_of_lookup in Hin as [i Hi]. eauto.
    + intros (i & p & Hi & Hcrit).
      pose proof (count_one critical _ i p Hi Hcrit). destruct (sh_held st); [done|lia].
Qed.

(** X14: no increment is lost.  Under every schedule, once all [n]
    goroutines have returned the depth is [d + n], and on an open
    [sql.Tx] the statements sent are SAVEPOINT SP(d+1), ..., SP(d+n), each
    once, in this order. *)
Theorem all_increments_count (n : nat) d over schedule :
  d + N.of_nat n ≤ uint64_max →
  let st := run_schedule schedule (goroutines n d over) in
  Forall (λ p, p = Returned) (sh_pcs st) →
  sh_savePoint st = d + N.of_nat n ∧
  sh_held st = false ∧
  (over = false → sh_sent st = savepoint_stmt "SAVEPOINT SP" <$> count_up d n).
Proof.
  intros Hroom st Hall.
  destruct (reachable n d over schedule Hroom) as (nums & HI & [Hlen _ Hdepth Hsent]).
  fold st in HI, Hlen, Hdepth, Hsent.
  assert (∀ f, f Returned = false → count f (sh_pcs st) = 0%nat) as Hnone
    by (intros f Hf; by apply count_all_returned).
  pose proof (count_partition (sh_pcs st)) as Hparts.
  rewrite (Hnone pending), (Hnone at_exec) in Hparts by done.
  rewrite (Hnone pending) in Hdepth by done.
  split_and!.
  - lia.
  - pose proof (inv_mutex _ _ HI) as Hmutex. rewrite (Hnone critical) in Hmutex by done.
    by destruct (sh_held st).
  - intros Hopen. rewrite Hsent by done. do 2 f_equal. lia.
Qed.

(** ** No goroutine waits for ever *)

Lemma steps_insert l i p q :
  l !! i = Some p →
  (sum_list_with steps_taken (<[i := q]> l) + steps_taken p
   = sum_list_with steps_taken l + steps_taken q)%nat.
Proof.
  revert i. induction l as [|a l IH]; intros [|i] Hi; try done.
  - injection Hi as ->. simpl. lia.
  - simpl in Hi. specialize (IH i Hi). simpl. lia.
Qed.

Lemma steps_bound l : (sum_list_with steps_taken l ≤ 5 * length l)%nat.
Proof. induction l as [|p l IH]; simpl; [lia|]. destruct p; simpl; lia. Qed.

Lemma steps_all l :
  (sum_list_with steps_taken l = 5 * length l)%nat → Forall (λ p, p = Returned) l.
Proof.
  induction l as [|p l IH]; intros Hsum; [constructor|].
  pose proof (steps_bound l). simpl in Hsum.
  constructor; [destruct p; simpl in Hsum; (done || lia)|].
  apply IH. destruct p; simpl in Hsum; lia.
Qed.

Lemma steps_left l :
  (sum_list_with steps_taken l < 5 * length l)%nat →
  ∃ i p, l !! i = Some p ∧ p ≠ Returned.
Proof.
  induction l as [|p l IH]; intros Hsum; simpl in Hsum; [lia|].
  destruct (decide (steps_taken p = 5)%nat) as [Hp|Hp].
  - destruct IH as (i & q & Hi & Hq); [lia|]. by exists (S i), q.
  - exists 0%nat, p. split; [done|]. by intros ->.
Qed.

(** A goroutine that holds the mutex always has a next step. *)
Lemma critical_moves st nums j q :
  Inv st nums → sh_pcs st !! j = Some q → critical q = true →
  all_steps_taken (step j st) = S (all_steps_taken st).
Proof.
  intros HI Hj Hq. unfold step, all_steps_taken. rewrite Hj.
  pose proof (count_one critical _ j q Hj Hq) as Hone.
  rewrite (inv_mutex _ _ HI) in Hone.
  destruct q; try done; cbn [move sh_pcs].
  - pose proof (steps_insert _ j _ (AtStore (sh_savePoint st)) Hj). simpl in *. lia.
  - pose proof (steps_insert _ j _ AtExec Hj). simpl in *. lia.
  - pose proof (steps_insert _ j _ AtUnlock Hj). simpl in *. lia.
  - destruct (sh_held st); [|lia]. cbn [move sh_pcs].
    pose proof (steps_insert _ j _ Returned Hj). simpl in *. lia.
Qed.

(** As long as a goroutine has not returned, one of them can move. *)
Lemma some_goroutine_moves st nums i p :
  Inv st nums → sh_pcs st !! i = Some p → p ≠ Returned →
  ∃ j, all_steps_taken (step j st) = S (all_steps_taken st).
Proof.
  intros HI Hi Hp.
  destruct (critical p) eqn:Hcrit; [exists i; by eapply critical_moves|].
  destruct p; try done.
  destruct (sh_held st) eqn:Hheld.
  - pose proof (inv_mutex _ _ HI) as Hmutex. rewrite Hheld in Hmutex.
    unfold count in Hmutex.
    destruct (filter (λ p, critical p = true) (sh_pcs st)) as [|q l] eqn:Hfilter; [done|].
    assert (q ∈ filter (λ p, critical p = true) (sh_pcs st)) as Hin
      by (rewrite Hfilter; by left).
    apply list_elem_of_filter in Hin as [Hq Hin].
    apply list_elem_of_lookup in Hin as [j Hj].
    exists j. by eapply critical_moves.
  - exists i. unfold step, all_steps_taken. rewrite Hi, Hheld. cbn [move sh_pcs].
    pose proof (steps_insert _ i _ AtLoad Hi). simpl in *. lia.
Qed.

Lemma step_length i st : length (sh_pcs (step i st)) = length (sh_pcs st).
Proof.
  unfold step. destruct (sh_pcs st !! i) as [[| |seen| | |]|]; try done;
    try destruct (sh_held st); cbn [move sh_pcs]; by rewrite ?length_insert.
Qed.

Lemma completion (k : nat) : ∀ st nums,
  Inv st nums →
  (all_steps_taken st + k = 5 * length (sh_pcs st))%nat →
  ∃ more, Forall (λ p, p = Returned) (sh_pcs (run_schedule more st)).
Proof.
  induction k as [|k IH]; intros st nums HI Hleft.
  - exists []. apply steps_all. unfold all_steps_taken in Hleft. simpl. lia.
  - destruct (steps_left (sh_pcs st)) as (i & p & Hi & Hp);
      [unfold all_steps_taken in Hleft; lia|].
    destruct (some_goroutine_moves st nums i p HI Hi Hp) as [j Hj].
    destruct (step_Inv j st nums HI) as [more1 HI1].
    destruct (IH (step j st) _ HI1) as [more Hdone].
    { rewrite step_length. lia. }
    by exists (j :: more).
Qed.

(** X15: no deadlock and no starvation by the mutex: whatever the
    goroutines have done so far, the schedule can go on until all of them
    have returned; as long as one has not returned there is one whose next
    step is not blocked. *)
Theorem every_schedule_can_be_completed (n : nat) d over schedule :
  d + N.of_nat n ≤ uint64_max →
  let st := run_schedule schedule (goroutines n d over) in
  ((∃ i p, sh_pcs st !! i = Some p ∧ p ≠ Returned) → ∃ j, step j st ≠ st) ∧
  ∃ more,
    Forall (λ p, p = Returned)
      (sh_pcs (run_schedule (schedule ++ more) (goroutines n d over))).
Proof.
  intros Hroom st. destruct (reachable n d over schedule Hroom) as (nums & HI & _).
  fold st in HI. split.
  - intros (i & p & Hi & Hp).
    destruct (some_goroutine_moves st nums i p HI Hi Hp) as [j Hj].
    exists j. intros Heq. rewrite Heq in Hj. lia.
  - pose proof (steps_bound (sh_pcs st)) as Hbound.
    destruct (completion (5 * length (sh_pcs st) - all_steps_taken st) st nums HI)
      as [more Hdone]; [unfold all_steps_taken; lia|].
    exists more. unfold run_schedule in *. by rewrite foldl_app.
Qed.

(** ** Concrete runs of the further properties *)

Lemma over_world_live d :
  d ≤ uint64_max →
  live storage (Some bound_context) (over_world d) 0 (open_handle d) 0 over_tx.
Proof. intros Hd. repeat split. exact Hd. Defined.

Lemma loud_world_live d answers :
  d ≤ uint64_max →
  live storage (Some bound_context) (loud_world d answers) 0 (open_handle d) 0 open_tx.
Proof. intros Hd. repeat split. exact Hd. Defined.

Lemma uint64_holds_2 : 2 ≤ uint64_max.
Proof. by vm_compute. Defined.

Lemma uint64_holds_max : uint64_max ≤ uint64_max.
Proof. by vm_compute. Defined.

(** X1 at work: from depth 1, a savepoint opened, rolled back, opened
    again and released. *)
Lemma nested_calls_witness :
  ∃ w', calls storage [OpStart; OpRollback; OpStart; OpCommit] (Some bound_context)
          (open_world 1 []) = Ret (Some bound_context, None) w' ∧
        depth storage (Some bound_context) w' = Some 1 ∧
        sql_of <$> wire w' = ["SAVEPOINT SP2"; "ROLLBACK TO SAVEPOINT SP2";
                              "SAVEPOINT SP2"; "RELEASE SAVEPOINT SP2"] ∧
        txs w' !! 0%nat = Some open_tx.
Proof.
  destruct (nested_calls_spare_the_real_transaction storage
              [OpStart; OpRollback; OpStart; OpCommit] (Some bound_context)
              (open_world 1 []) 0 (open_handle 1) 0 open_tx
              (open_world_live 1 _ uint64_holds_1) eq_refl) as [Hreturns Hafter].
  { by vm_compute. }
  destruct Hreturns as [w' Hrun]; [constructor|].
  destruct (Hafter _ _ Hrun) as (_ & Hdepth & Hwire & Hopen).
  exists w'. split; [exact Hrun|]. split; [exact Hdepth|]. split; [|exact Hopen].
  by rewrite Hwire.
Defined.

(** X2 at work. *)
Lemma well_nested_scope_witness :
  ∃ c' w', calls storage (OpStart :: [OpStart; OpStart; OpCommit; OpRollback] ++ [OpRollback])
             (Some Background) fresh_world = Ret (Some c', None) w' ∧
           sql_of <$> wire w' = ["BEGIN"; "SAVEPOINT SP1"; "SAVEPOINT SP2";
                                 "RELEASE SAVEPOINT SP2"; "ROLLBACK TO SAVEPOINT SP1";
                                 "ROLLBACK"].
Proof.
  destruct (well_nested_scope storage [OpStart; OpStart; OpCommit; OpRollback] OpRollback
              Background fresh_world fresh_unbound) as (c' & w' & Hrun & _ & Hwire & _).
  - by vm_compute.
  - by vm_compute.
  - by right.
  - constructor.
  - exists c', w'. split; [exact Hrun|]. by rewrite Hwire.
Defined.

(** X3 at work. *)
Lemma GetTransaction_witness :
  GetTransaction storage (Some Background) fresh_world = Ret None fresh_world ∧
  GetTransaction storage (Some bound_context) (open_world 5 [])
  = Ret (Some 0%nat) (open_world 5 []).
Proof.
  destruct (GetTransaction_follows_the_scope storage) as (Hnone & Hbound & _).
  split.
  - exact (Hnone Background fresh_world fresh_unbound).
  - exact (Hbound (Some bound_context) (open_world 5 []) 0%nat (open_handle 5) eq_refl eq_refl).
Defined.

(** X4 at work: a [Rollback] at depth 0 that the driver refuses. *)
Lemma one_round_trip_witness :
  ∃ r w', Rollback storage (Some bound_context) (open_world 0 [Some 2006%nat])
          = Ret (r, Some (DriverError 2006)) w' ∧
          wire w' = [CRollback 0] ∧ driver w' = [].
Proof.
  destruct (one_call_one_round_trip storage) as [_ Hone].
  destruct (Hone OpRollback (Some bound_context) (open_world 0 [Some 2006%nat]) 0%nat
              (open_handle 0) 0%nat open_tx (open_world_live 0 _ uint64_holds_0) eq_refl)
    as (r & w' & Hrun & Hwire & Hdrv & _).
  { intros [=]. }
  exists r, w'. split; [exact Hrun|]. split; [exact Hwire|exact Hdrv].
Defined.

(** X5 at work, with [debugSQL] on and a refused RELEASE. *)
Lemma debug_output_witness :
  ∃ r w', calls storage [OpStart; OpCommit; OpStart] (Some bound_context)
            (loud_world 0 [None; Some 1305%nat]) = Ret r w' ∧
          stderr w' = ["SAVEPOINT SP1"; "RELEASE SAVEPOINT SP1"] ∧
          sql_of <$> wire w' = ["SAVEPOINT SP1"; "RELEASE SAVEPOINT SP1"].
Proof.
  assert (∃ r w', calls storage [OpStart; OpCommit; OpStart] (Some bound_context)
                    (loud_world 0 [None; Some 1305%nat]) = Ret r w') as (r & w' & Hrun)
    by (eexists _, _; by vm_compute).
  assert (stays_nested (savePoint (open_handle 0)) [OpStart; OpCommit; OpStart]) as Hfit
    by (repeat split; reflexivity).
  destruct (debug_output_is_what_was_sent storage [OpStart; OpCommit; OpStart]
              (Some bound_context) 0%nat 0%nat open_tx
              (loud_world 0 [None; Some 1305%nat]) (open_handle 0) r w'
              (loud_world_live 0 [None; Some 1305%nat] uint64_holds_0) eq_refl Hfit Hrun)
    as (_ & sent_now & Hwire & Hout).
  exists r, w'. split; [exact Hrun|].
  assert (sql_of <$> wire w' = ["SAVEPOINT SP1"; "RELEASE SAVEPOINT SP1"]) as Hsql
    by (vm_compute in Hrun; by injection Hrun as _ <-).
  split; [|exact Hsql]. rewrite Hout. rewrite Hwire in Hsql. exact Hsql.
Defined.

(** X19 at work: the mutex after a refused savepoint. *)
Lemma mutex_released_witness :
  ∃ r w', StartTransaction storage (Some bound_context) (open_world 0 [Some 1213%nat])
          = Ret (r, Some (DriverError 1213)) w' ∧
          locks w' = [false].
Proof.
  assert (∃ r w', StartTransaction storage (Some bound_context)
                    (open_world 0 [Some 1213%nat])
                  = Ret (r, Some (DriverError 1213)) w') as (r & w' & Hrun)
    by (eexists _, _; by vm_compute).
  destruct (returning_calls_release_the_mutex storage (Some bound_context) None
              (open_world 0 [Some 1213%nat]) r (Some (DriverError 1213)) w') as [Hstart _].
  exists r, w'. split; [exact Hrun|].
  destruct (Hstart (or_introl Hrun)) as [Hsame|Hmore]; [exact Hsame|].
  vm_compute in Hrun. injection Hrun as _ <-. discriminate Hmore.
Defined.

(** X6 at work: the keys of the two [MySQL] objects differ. *)
Lemma transactionKey_witness : transactionKey storage ≠ transactionKey storage2.
Proof.
  intros Hkey. apply (transactionKey_tells_coordinators_apart storage storage2) in Hkey.
  discriminate Hkey.
Defined.

(** X7 at work: [storage] commits its transaction on a context that is
    also bound for [storage2]. *)
Lemma other_bindings_witness :
  ∃ c' w', Commit storage (Some shared_context) two_worlds = Ret (Some c', None) w' ∧
           bound storage (Some c') = None ∧
           bound storage2 (Some c') = Some (TransactionPtr 1).
Proof.
  assert (∃ c' w', Commit storage (Some shared_context) two_worlds = Ret (Some c', None) w')
    as (c' & w' & Hrun) by (eexists _, _; by vm_compute).
  exists c', w'. split; [exact Hrun|]. split.
  - vm_compute in Hrun. by injection Hrun as <- _.
  - rewrite (bindings_of_other_coordinators_survive storage storage2 (Some shared_context)
               two_worlds c' None w'); [done|done|done|done|].
    right. left. exact Hrun.
Defined.

(** X8 at work: the same [Commit] leaves the [transaction] of [storage2]
    at depth 3. *)
Lemma other_transactions_witness :
  ∃ r w', Commit storage (Some shared_context) two_worlds = Ret (r, None) w' ∧
          handles w' !! 1%nat
          = Some {| tx := Some 1%nat; savePoint := 3; savePointMtx := false |}.
Proof.
  assert (∃ r w', Commit storage (Some shared_context) two_worlds = Ret (r, None) w')
    as (r & w' & Hrun) by (eexists _, _; by vm_compute).
  exists r, w'. split; [exact Hrun|].
  refine (calls_touch_only_their_transaction storage (Some shared_context) None two_worlds
            r None w' (or_intror (or_intror (or_introl Hrun))) 1%nat _ eq_refl _).
  vm_compute. intros [=].
Defined.


(** X10 at work: a scope at depth 1 around a function that fails. *)
Lemma nested_scope_witness :
  ∃ w', DoInTransaction storage (Some bound_context) failing (open_world 1 [])
        = Ret (Some (Qerror "boom")) w' ∧
        sql_of <$> wire w' = ["SAVEPOINT SP2"; "ROLLBACK TO SAVEPOINT SP2"] ∧
        depth storage (Some bound_context) w' = Some 1.
Proof.
  assert (∃ ctx1 w1, StartTransaction storage (Some bound_context) (open_world 1 [])
                     = Ret (ctx1, None) w1 ∧
                     live storage ctx1 w1 0 (open_handle 2) 0 open_tx)
    as (ctx1 & w1 & Hstart & Hl1).
  { eexists _, _. split; [by vm_compute|]. repeat split. by vm_compute. }
  destruct (DoInTransaction_nested_scope storage (Some bound_context) failing
              (open_world 1 []) 0%nat (open_handle 1) 0%nat open_tx ctx1 w1
              (Some (Qerror "boom")) w1 (open_handle 2)
              (open_world_live 1 _ uint64_holds_1) eq_refl)
    as (_ & Hwire1 & w3 & Hrun & Hwire3 & Hdepth & _);
    [by vm_compute|exact Hstart|done|exact Hl1|done| |].
  { vm_compute in Hstart. by injection Hstart as _ <-. }
  exists w3. split; [exact Hrun|]. split; [|exact Hdepth].
  by rewrite Hwire3, Hwire1.
Defined.

(** X11 at work: three scopes around a function that fails. *)
Lemma nested_scopes_witness :
  ∃ w', scopes storage 3 failing (Some Background) fresh_world
        = Ret (Some (Qerror "boom")) w' ∧
        sql_of <$> wire w' = ["BEGIN"; "SAVEPOINT SP1"; "SAVEPOINT SP2";
                              "ROLLBACK TO SAVEPOINT SP2"; "ROLLBACK TO SAVEPOINT SP1";
                              "ROLLBACK"].
Proof.
  destruct (nested_scopes_close_in_reverse_order storage 2 failing (Some (Qerror "boom"))
              Background fresh_world) as (w' & Hrun & Hwire & _).
  - done.
  - exact fresh_unbound.
  - by vm_compute.
  - constructor.
  - exists w'. split; [exact Hrun|]. by rewrite Hwire.
Defined.

(** X12 at work: the [sql.Tx] at address 0 of [open_world], adopted. *)
Lemma adopted_transaction_witness :
  ∃ c1 w1 c' w',
    UseTransaction storage (Some Background) (Some 0%nat) (open_world 0 [])
    = Ret (Some c1, None) w1 ∧
    calls storage ([OpStart; OpCommit] ++ [OpCommit]) (Some c1) w1
    = Ret (Some c', None) w' ∧
    sql_of <$> wire w' = ["SAVEPOINT SP1"; "RELEASE SAVEPOINT SP1"; "COMMIT"] ∧
    txs w' !! 0%nat = Some over_tx.
Proof.
  destruct (adopted_transaction_is_closed_by_the_coordinator storage Background 0%nat
              open_tx (open_world 0 []) [OpStart; OpCommit] OpCommit fresh_unbound
              eq_refl eq_refl)
    as (c1 & w1 & c' & w' & Hadopt & _ & Hrun & _ & Hwire & Hover).
  - by vm_compute.
  - by vm_compute.
  - by left.
  - constructor.
  - exists c1, w1, c', w'. split; [exact Hadopt|]. split; [exact Hrun|].
    split; [by rewrite Hwire|exact Hover].
Defined.

(** X16 at work: a [Commit] at depth 2 on an [sql.Tx] that is over. *)
Lemma finished_transaction_witness :
  ∃ w', Commit storage (Some bound_context) (over_world 2) = Ret (None, Some ErrTxDone) w' ∧
        wire w' = [] ∧ depth storage (Some bound_context) w' = Some 2.
Proof.
  destruct (calls_on_a_finished_transaction storage OpCommit (Some bound_context)
              (over_world 2) 0%nat (open_handle 2) 0%nat over_tx
              (over_world_live 2 uint64_holds_2) eq_refl)
    as (w' & Hrun & Hwire & _ & _ & Hdepth).
  exists w'. split; [exact Hrun|]. split; [exact Hwire|exact Hdepth].
Defined.

(** X17 at work. *)
Lemma depth_wraps_witness :
  ∃ r w', StartTransaction storage (Some bound_context) (open_world uint64_max [])
          = Ret (r, None) w' ∧
          wire w' = [CExec 0 "SAVEPOINT SP0"] ∧
          depth storage (Some bound_context) w' = Some 0.
Proof.
  destruct (depth_wraps_at_the_top storage (Some bound_context) (open_world uint64_max [])
              0%nat (open_handle uint64_max) 0%nat open_tx
              (open_world_live uint64_max _ uint64_holds_max) eq_refl eq_refl)
    as (r & w' & Hrun & Hwire & Hdepth & _).
  exists r, w'. split; [exact Hrun|]. split; [exact Hwire|exact Hdepth].
Defined.

(** X18 at work on the row of Ada Lovelace. *)
Lemma fullname_witness :
  fullname_Get ada = Some (FString "Ada Lovelace", None) ∧
  fullname_Get (delete "lastname" ada) = None ∧
  fullname_Get (<["id" := FInt 2]> ada) = fullname_Get ada.
Proof.
  destruct fullname_reads_what_it_depends_on as (Hvalue & Hpanic & Hsame).
  split_and!.
  - exact (Hvalue ada "Ada" "Lovelace" eq_refl eq_refl).
  - apply Hpanic. exists "lastname". split; [by right; left|]. intros v. by vm_compute.
  - apply Hsame. intros key Hkey.
    apply list_elem_of_In in Hkey. by destruct Hkey as [<-|[<-|[]]].
Defined.

(** X13 at work: in the middle of a schedule of three goroutines. *)
Lemma one_at_a_time_witness :
  let st := run_schedule [0; 1; 2; 0; 1; 0]%nat (goroutines 3 0 false) in
  sh_pcs st = [AtExec; AtLock; AtLock] ∧ sh_held st = true ∧
  ∀ j q, sh_pcs st !! j = Some q → critical q = true → j = 0%nat.
Proof.
  split; [by vm_compute|]. split; [by vm_compute|].
  destruct (one_goroutine_at_a_time 3 0 false [0; 1; 2; 0; 1; 0]%nat) as [Halone _].
  - by vm_compute.
  - intros j q Hj Hq. symmetry. exact (Halone 0%nat j AtExec q eq_refl Hj eq_refl Hq).
Defined.

(** X14 at work: two goroutines, from depth 4. *)
Lemma all_increments_witness :
  let st := run_schedule [1; 0; 1; 1; 0; 1; 1; 0; 0; 0; 0; 0]%nat (goroutines 2 4 false) in
  sh_savePoint st = 6 ∧ sh_sent st = ["SAVEPOINT SP5"; "SAVEPOINT SP6"].
Proof.
  destruct (all_increments_count 2 4 false [1; 0; 1; 1; 0; 1; 1; 0; 0; 0; 0; 0]%nat)
    as (Hdepth & _ & Hsent).
  - by vm_compute.
  - vm_compute. by repeat constructor.
  - split; [exact Hdepth|exact (Hsent eq_refl)].
Defined.

(** X15 at work: a schedule that stopped with the mutex held. *)
Lemma completion_witness :
  ∃ more,
    Forall (λ p, p = Returned)
      (sh_pcs (run_schedule ([0; 1; 0]%nat ++ more) (goroutines 2 0 false))).
Proof.
  destruct (every_schedule_can_be_completed 2 0 false [0; 1; 0]%nat) as [_ Hmore].
  - by vm_compute.
  - exact Hmore.
Defined.
